(** * tigerbeetle_grpc: the gRPC front end of a TigerBeetle ledger

    A shallow embedding of the application of package [grpc]: the translation of wire messages
    into ledger records, the two write RPCs ([CreateAccounts],
    [CreateTransfers]), the construction of the application from the
    process environment ([NewApp]) and the flush callback that [NewApp]
    registers with the timed buffer.

    Integers of Go are [Z] with the wrap-around of each conversion written
    out; a Go [(value, error)] pair whose value is dropped on error is an
    [outcome], and a call that may also panic ends in an [exec]; the
    process environment, and the heap of channels through
    which flushed results travel back to the blocked RPCs, are finite
    maps. *)

From Stdlib Require Import ZArith Ascii String List Lia.
From stdpp Require Import base option list gmap strings.
Import ListNotations.

Open Scope string_scope.
Open Scope list_scope.
Open Scope Z_scope.

(** ** Errors and fallible results *)

(** The two sentinel errors of the package, and errors that come out of a
    collaborator (identifier parsing, the ledger client). *)
Inductive error : Type :=
| ErrZeroAccounts
| ErrZeroTransfers
| ExternalError (msg : string).

(** A Go result [(v, err)] of which the caller looks at [v] only when
    [err == nil]. *)
Inductive outcome (A : Type) : Type :=
| Reply (a : A)
| Failure (e : error).
Arguments Reply {A} a.
Arguments Failure {A} e.

Global Instance outcome_bind : MBind outcome := fun A B k m =>
  match m with
  | Reply a => k a
  | Failure e => Failure e
  end.

(** How a call ends: normally, with its result, or in a panic, as the
    dereference of a nil pointer does. *)
Inductive exec (A : Type) : Type :=
| Normal (r : outcome A)
| Panic.
Arguments Normal {A} r.
Arguments Panic {A}.

Coercion Normal : outcome >-> exec.

Global Instance exec_bind : MBind exec := fun A B k m =>
  match m with
  | Normal (Reply a) => k a
  | Normal (Failure e) => Normal (Failure e)
  | Panic => Panic
  end.

(** [p.field] for a pointer [p] to a message: the message, or a panic when
    [p] is nil. *)
Definition deref {A : Type} (p : option A) : exec A :=
  match p with
  | Some v => Normal (Reply v)
  | None => Panic
  end.

(** ** Integer conversions *)

Definition uint16 (x : Z) : Z := x mod 2 ^ 16.
Definition uint32 (x : Z) : Z := x mod 2 ^ 32.
Definition uint64 (x : Z) : Z := x mod 2 ^ 64.

(** [lo.FromPtrOr]: the pointee, or the fallback for a nil pointer. *)
Definition FromPtrOr {A : Type} (p : option A) (fallback : A) : A :=
  match p with
  | Some v => v
  | None => fallback
  end.

(** ** Ledger records (package [types] of the client library) *)

Module types.

Definition Uint128 := Z.

(** [types.ToUint128]: a 64-bit value as a 128-bit one. *)
Definition ToUint128 (v : Z) : Uint128 := v.

Module AccountFlags.
Record t := mk {
  Linked : bool;
  DebitsMustNotExceedCredits : bool;
  CreditsMustNotExceedDebits : bool;
  History : bool }.
End AccountFlags.

Module TransferFlags.
Record t := mk {
  Linked : bool;
  Pending : bool;
  PostPendingTransfer : bool;
  VoidPendingTransfer : bool;
  BalancingDebit : bool;
  BalancingCredit : bool }.
End TransferFlags.

(** The fields [CreateAccounts] fills in; Go zeroes the others. *)
Module Account.
Record t := mk {
  ID : Uint128;
  DebitsPending : Uint128;
  DebitsPosted : Uint128;
  CreditsPending : Uint128;
  CreditsPosted : Uint128;
  UserData128 : Uint128;
  UserData64 : Z;
  UserData32 : Z;
  Ledger : Z;
  Code : Z;
  Flags : Z }.
End Account.

Module Transfer.
Record t := mk {
  ID : Uint128;
  DebitAccountID : Uint128;
  CreditAccountID : Uint128;
  Amount : Uint128;
  PendingID : Uint128;
  UserData128 : Uint128;
  UserData64 : Z;
  UserData32 : Z;
  Timeout : Z;
  Ledger : Z;
  Code : Z;
  Flags : Z;
  Timestamp : Z }.
End Transfer.

(** One entry of the ledger's answer: the position of a record in the
submitted sequence and the result code for it. *)
Module AccountEventResult.
Record t := mk { Index : Z; Result : Z }.
End AccountEventResult.

Module TransferEventResult.
Record t := mk { Index : Z; Result : Z }.
End TransferEventResult.

End types.

(** ** Wire messages (package [proto])

    The generated declarations are not among the sources; the records
    below have the fields the handlers read, with the types their use
    fixes: a field handed to [lo.FromPtrOr] is a pointer, a field handed to
    an integer conversion is an integer.  A sub-message is a pointer, nil
    in a request that leaves the sub-message out. *)

Module proto.

Module AccountFlags.
Record t := mk {
  Linked : option bool;
  DebitsMustNotExceedCredits : option bool;
  CreditsMustNotExceedDebits : option bool;
  History : option bool }.
End AccountFlags.

Module TransferFlags.
Record t := mk {
  Linked : option bool;
  Pending : option bool;
  PostPendingTransfer : option bool;
  VoidPendingTransfer : option bool;
  BalancingDebit : option bool;
  BalancingCredit : option bool }.
End TransferFlags.

Module Account.
Record t := mk {
  Id : string;
  DebitsPending : Z;
  DebitsPosted : Z;
  CreditsPending : Z;
  CreditsPosted : Z;
  UserData128 : string;
  UserData64 : Z;
  UserData32 : Z;
  Ledger : Z;
  Code : Z;
  Flags : option AccountFlags.t }.
End Account.

Module Transfer.
Record t := mk {
  Id : string;
  DebitAccountId : string;
  CreditAccountId : string;
  Amount : Z;
  PendingId : option string;
  UserData128 : string;
  UserData64 : Z;
  UserData32 : Z;
  Ledger : Z;
  Code : Z;
  TransferFlags : option TransferFlags.t }.
End Transfer.

Module CreateAccountsReply.
Record t := mk { Results : list string }.
End CreateAccountsReply.

Module CreateTransfersReply.
Record t := mk { Results : list string }.
End CreateTransfersReply.

End proto.

(** ** Collaborators

    Functions of other packages that the handlers call.  They are
    parameters of the development; module [Reference] gives an instance on
    which the model can be run. *)

Class Library : Type := {
  (** [shared.HexStringToUint128] *)
  shared_HexStringToUint128 : string -> outcome types.Uint128;
  (** [types.HexStringToUint128] *)
  types_HexStringToUint128 : string -> outcome types.Uint128;
  (** [types.AccountFlags.ToUint16], [types.TransferFlags.ToUint16] *)
  AccountFlags_ToUint16 : types.AccountFlags.t -> Z;
  TransferFlags_ToUint16 : types.TransferFlags.t -> Z;
  (** the [String] methods of the two result codes *)
  CreateAccountResult_String : Z -> string;
  CreateTransferResult_String : Z -> string;
  (** [strconv.Atoi] and [time.ParseDuration], both results *)
  strconv_Atoi : string -> Z * option error;
  time_ParseDuration : string -> Z * option error }.

(** The two methods of [tb.Client] that write to the ledger.  The client
    is stateful: a call sees the ledger state and leaves a new one. *)
Class Client (St : Type) : Type := {
  TB_CreateAccounts :
    list types.Account.t -> St ->
    (list types.AccountEventResult.t * option error) * St;
  TB_CreateTransfers :
    list types.Transfer.t -> St ->
    (list types.TransferEventResult.t * option error) * St }.

(** ** The payload of the timed buffer *)

(** A channel is a reference into the heap of channels. *)
Definition chan := nat.

Module TimedPayloadResponse.
Record t := mk {
  Results : list types.TransferEventResult.t;
  Error : option error }.
End TimedPayloadResponse.

Module TimedPayload.
Record t := mk {
  c : chan;
  payload : list types.Transfer.t }.
End TimedPayload.

(** ** The timed buffer (package [timedbuf]) *)

Module timedbuf.

(** Modelled from the spec: the library [timedbuf] is not among the
    sources.  This is the Coalescer of the specification: it owns the live
    Batch, a capacity and a delay.  The flush function given to [New] is
    not stored here; [Put] and [Deadline] hand back the Batch they retire,
    and the caller runs the flush function on it, once. *)
Record TimedBuf (T : Type) := mk {
  capacity : Z;
  delay : Z;
  live : list T }.
Arguments mk {T} capacity delay live.
Arguments capacity {T} t.
Arguments delay {T} t.
Arguments live {T} t.

(** Modelled from the spec: the error of a construction with a capacity
    or a delay that is not above 0. *)
Definition ErrConfiguration : error :=
  ExternalError "timedbuf: invalid configuration".

(** Modelled from the spec: a Coalescer is made with a capacity above 0
    and a delay above 0, and is born with an empty Batch; a capacity or a
    delay that is not above 0 is a configuration error, reported by the
    construction. *)
Definition New {T : Type} (size : Z) (maxDelay : Z) : outcome (TimedBuf T) :=
  if (0 <? size) && (0 <? maxDelay) then Reply (mk size maxDelay [])
  else Failure ErrConfiguration.

(** Modelled from the spec: [Put] appends the item to the live Batch; if
    the append makes the Batch reach the capacity, the Batch is retired
    (to be flushed) and a fresh empty one takes its place. *)
Definition Put {T : Type} (b : TimedBuf T) (item : T)
  : TimedBuf T * option (list T) :=
  let batch := live b ++ [item] in
  if capacity b <=? Z.of_nat (length batch)
  then (mk (capacity b) (delay b) [], Some batch)
  else (mk (capacity b) (delay b) batch, None).

(** Modelled from the spec: when the deadline timer fires, the Batch that
    is live at that moment is retired; on a Batch that was already flushed
    (nothing is live) the timer does nothing. *)
Definition Deadline {T : Type} (b : TimedBuf T)
  : TimedBuf T * option (list T) :=
  match live b with
  | [] => (b, None)
  | batch => (mk (capacity b) (delay b) [], Some batch)
  end.

End timedbuf.

(** ** The process environment *)

(** [os.Getenv]: the value of the variable, empty when it is not set. *)
Definition Getenv (env : gmap string string) (key : string) : string :=
  default "" (env !! key).

(** [time.Millisecond], in nanoseconds. *)
Definition Millisecond : Z := 1000000.

Section Server.

Context {lib : Library} {St : Type} {client : Client St}.

(** ** Translation of the wire messages *)

(** The body of the loop of [CreateAccounts], for one element. *)
Definition translateAccount (inAccount : proto.Account.t)
  : exec types.Account.t :=
  id ← Normal (shared_HexStringToUint128 (proto.Account.Id inAccount));
  userData128 ←
    Normal (types_HexStringToUint128 (proto.Account.UserData128 inAccount));
  inFlags ← deref (proto.Account.Flags inAccount);
  let flags :=
    types.AccountFlags.mk
      (FromPtrOr (proto.AccountFlags.Linked inFlags) false)
      (FromPtrOr (proto.AccountFlags.DebitsMustNotExceedCredits inFlags) false)
      (FromPtrOr (proto.AccountFlags.CreditsMustNotExceedDebits inFlags) false)
      (FromPtrOr (proto.AccountFlags.History inFlags) false) in
  Normal (Reply {|
    types.Account.ID := id;
    types.Account.DebitsPending :=
      types.ToUint128 (uint64 (proto.Account.DebitsPending inAccount));
    types.Account.DebitsPosted :=
      types.ToUint128 (uint64 (proto.Account.DebitsPosted inAccount));
    types.Account.CreditsPending :=
      types.ToUint128 (uint64 (proto.Account.CreditsPending inAccount));
    types.Account.CreditsPosted :=
      types.ToUint128 (uint64 (proto.Account.CreditsPosted inAccount));
    types.Account.UserData128 := userData128;
    types.Account.UserData64 := uint64 (proto.Account.UserData64 inAccount);
    types.Account.UserData32 := uint32 (proto.Account.UserData32 inAccount);
    types.Account.Ledger := uint32 (proto.Account.Ledger inAccount);
    types.Account.Code := uint16 (proto.Account.Code inAccount);
    types.Account.Flags := AccountFlags_ToUint16 flags |}).

(** The loop of [CreateAccounts]: [accounts] grows by one record per
    element; the first error, or the first panic, ends the call. *)
Fixpoint translateAccounts (ins : list proto.Account.t)
    (accounts : list types.Account.t) : exec (list types.Account.t) :=
  match ins with
  | [] => Normal (Reply accounts)
  | inAccount :: rest =>
      match translateAccount inAccount with
      | Normal (Failure e) => Normal (Failure e)
      | Panic => Panic
      | Normal (Reply a) => translateAccounts rest (accounts ++ [a])
      end
  end.

(** The body of the loop of [CreateTransfers], for one element. *)
Definition translateTransfer (inTransfer : proto.Transfer.t)
  : exec types.Transfer.t :=
  id ← Normal (shared_HexStringToUint128 (proto.Transfer.Id inTransfer));
  inFlags ← deref (proto.Transfer.TransferFlags inTransfer);
  let flags :=
    types.TransferFlags.mk
      (FromPtrOr (proto.TransferFlags.Linked inFlags) false)
      (FromPtrOr (proto.TransferFlags.Pending inFlags) false)
      (FromPtrOr (proto.TransferFlags.PostPendingTransfer inFlags) false)
      (FromPtrOr (proto.TransferFlags.VoidPendingTransfer inFlags) false)
      (FromPtrOr (proto.TransferFlags.BalancingDebit inFlags) false)
      (FromPtrOr (proto.TransferFlags.BalancingCredit inFlags) false) in
  debitAccountID ←
    Normal (shared_HexStringToUint128 (proto.Transfer.DebitAccountId inTransfer));
  creditAccountID ←
    Normal (shared_HexStringToUint128 (proto.Transfer.CreditAccountId inTransfer));
  pendingID ←
    Normal (shared_HexStringToUint128
              (FromPtrOr (proto.Transfer.PendingId inTransfer) ""));
  userData128 ←
    Normal (types_HexStringToUint128 (proto.Transfer.UserData128 inTransfer));
  Normal (Reply {|
    types.Transfer.ID := id;
    types.Transfer.DebitAccountID := debitAccountID;
    types.Transfer.CreditAccountID := creditAccountID;
    types.Transfer.Amount :=
      types.ToUint128 (uint64 (proto.Transfer.Amount inTransfer));
    types.Transfer.PendingID := pendingID;
    types.Transfer.UserData128 := userData128;
    types.Transfer.UserData64 := uint64 (proto.Transfer.UserData64 inTransfer);
    types.Transfer.UserData32 := uint32 (proto.Transfer.UserData32 inTransfer);
    types.Transfer.Timeout := 0;
    types.Transfer.Ledger := uint32 (proto.Transfer.Ledger inTransfer);
    types.Transfer.Code := uint16 (proto.Transfer.Ledger inTransfer);
    types.Transfer.Flags := TransferFlags_ToUint16 flags;
    types.Transfer.Timestamp := 0 |}).

(** The loop of [CreateTransfers]. *)
Fixpoint translateTransfers (ins : list proto.Transfer.t)
    (transfers : list types.Transfer.t) : exec (list types.Transfer.t) :=
  match ins with
  | [] => Normal (Reply transfers)
  | inTransfer :: rest =>
      match translateTransfer inTransfer with
      | Normal (Failure e) => Normal (Failure e)
      | Panic => Panic
      | Normal (Reply t) => translateTransfers rest (transfers ++ [t])
      end
  end.

(** ** The application and the state it runs in *)

(** [TB] is the ledger behind the client; [TimedBuf] is nil when requests
    are not buffered. *)
Record App := mkApp {
  TB : St;
  TimedBuf : option (timedbuf.TimedBuf TimedPayload.t) }.

(** A call made on the client, with the sequence it was given. *)
Inductive call : Type :=
| CallCreateAccounts (accounts : list types.Account.t)
| CallCreateTransfers (transfers : list types.Transfer.t).

(** The application, the heap of channels (for each channel, the values
    sent and not yet received), and two histories kept for the statements:
    the calls made on the client and the Batches retired by the buffer,
    both oldest first. *)
Record State := mkState {
  app : App;
  chans : gmap chan (list TimedPayloadResponse.t);
  calls : list call;
  retired : list (list TimedPayload.t) }.

(** [make(chan TimedPayloadResponse)]: a channel no one holds yet. *)
Definition make_chan (s : State) : chan * State :=
  let c := fresh (dom (chans s)) in
  (c, mkState (app s) (<[c := []]> (chans s)) (calls s) (retired s)).

(** [c <- v].  The receiver of a response channel is the one RPC that made
    it, so a send is recorded in the channel and the value waits there for
    the receive. *)
Definition chan_send (c : chan) (v : TimedPayloadResponse.t) (s : State)
  : State :=
  mkState (app s) (alter (fun q => q ++ [v]) c (chans s)) (calls s) (retired s).

(** [<-c]: the oldest value sent on [c], if one was sent; the receiver
    stays blocked otherwise. *)
Definition chan_recv (c : chan) (s : State)
  : option (TimedPayloadResponse.t * State) :=
  match chans s !! c with
  | Some (v :: q) =>
      Some (v, mkState (app s) (<[c := q]> (chans s)) (calls s) (retired s))
  | _ => None
  end.

(** [s.TB.CreateAccounts] and [s.TB.CreateTransfers] on the state. *)
Definition client_CreateAccounts (accounts : list types.Account.t) (s : State)
  : (list types.AccountEventResult.t * option error) * State :=
  let '(r, tb') := TB_CreateAccounts accounts (TB (app s)) in
  (r, mkState (mkApp tb' (TimedBuf (app s))) (chans s)
        (calls s ++ [CallCreateAccounts accounts]) (retired s)).

Definition client_CreateTransfers (transfers : list types.Transfer.t)
    (s : State)
  : (list types.TransferEventResult.t * option error) * State :=
  let '(r, tb') := TB_CreateTransfers transfers (TB (app s)) in
  (r, mkState (mkApp tb' (TimedBuf (app s))) (chans s)
        (calls s ++ [CallCreateTransfers transfers]) (retired s)).

(** ** The flush callback of [NewApp] *)

(** The function literal given to [timedbuf.New]: collect the transfers of
    all payloads into one sequence, submit it once, and send the one
    response to the channel of every payload. *)
Definition flushFn (payloads : list TimedPayload.t) (s : State) : State :=
  let transfers :=
    fold_left (fun transfers p => transfers ++ TimedPayload.payload p)
      payloads [] in
  let '((results, err), s1) := client_CreateTransfers transfers s in
  let res := TimedPayloadResponse.mk results err in
  fold_left (fun s' p => chan_send (TimedPayload.c p) res s') payloads s1.

(** ** The buffer inside the application *)

Definition set_TimedBuf (b : timedbuf.TimedBuf TimedPayload.t) (s : State)
  : State :=
  mkState (mkApp (TB (app s)) (Some b)) (chans s) (calls s) (retired s).

(** Modelled from the spec: the Batch that the buffer retires is handed to
    the flush function the buffer was made with, the callback of [NewApp],
    once and at the moment it is retired. *)
Definition retire (r : option (list TimedPayload.t)) (s : State) : State :=
  match r with
  | None => s
  | Some batch =>
      flushFn batch
        (mkState (app s) (chans s) (calls s) (retired s ++ [batch]))
  end.

(** [s.TimedBuf.Put(item)]: the put of the buffer, and the flush of the
    Batch it retires, if any. *)
Definition TimedBuf_Put (item : TimedPayload.t) (s : State) : State :=
  match TimedBuf (app s) with
  | None => s
  | Some b =>
      let '(b', r) := timedbuf.Put b item in
      retire r (set_TimedBuf b' s)
  end.

(** The deadline timer of the buffer fires: the flush of the Batch it
    retires, if any. *)
Definition TimedBuf_Deadline (s : State) : State :=
  match TimedBuf (app s) with
  | None => s
  | Some b =>
      let '(b', r) := timedbuf.Deadline b in
      retire r (set_TimedBuf b' s)
  end.

(** ** The write RPCs *)

(** [CreateAccounts] *)
Definition CreateAccounts (in_ : list proto.Account.t) (s : State)
  : exec proto.CreateAccountsReply.t * State :=
  if (length in_ =? 0)%nat then (Normal (Failure ErrZeroAccounts), s)
  else
    match translateAccounts in_ [] with
    | Normal (Failure e) => (Normal (Failure e), s)
    | Panic => (Panic, s)
    | Normal (Reply accounts) =>
        let '((resp, err), s1) := client_CreateAccounts accounts s in
        match err with
        | Some e => (Normal (Failure e), s1)
        | None =>
            let resArr :=
              fold_left
                (fun resArr r =>
                   resArr ++
                   [CreateAccountResult_String (types.AccountEventResult.Result r)])
                resp [] in
            (Normal (Reply (proto.CreateAccountsReply.mk resArr)), s1)
        end
    end.

(** The end of [CreateTransfers], from [if err != nil] on: the reply made
    of the results, or the error. *)
Definition CreateTransfers_reply
    (results : list types.TransferEventResult.t) (err : option error)
  : outcome proto.CreateTransfersReply.t :=
  match err with
  | Some e => Failure e
  | None =>
      let resArr :=
        fold_left
          (fun resArr r =>
             resArr ++
             [CreateTransferResult_String (types.TransferEventResult.Result r)])
          results [] in
      Reply (proto.CreateTransfersReply.mk resArr)
  end.

(** Where a call of [CreateTransfers] stands: it has ended, with a reply,
    an error or a panic, or it is blocked in [resp := <-c]. *)
Inductive rpc : Type :=
| Returned (r : exec proto.CreateTransfersReply.t)
| Waiting (c : chan).

(** [CreateTransfers], up to its return or up to the receive on which the
    buffered path blocks. *)
Definition CreateTransfers (in_ : list proto.Transfer.t) (s : State)
  : rpc * State :=
  if (length in_ =? 0)%nat then (Returned (Failure ErrZeroTransfers), s)
  else
    match translateTransfers in_ [] with
    | Normal (Failure e) => (Returned (Failure e), s)
    | Panic => (Returned Panic, s)
    | Normal (Reply transfers) =>
        match TimedBuf (app s) with
        | Some _ =>
            let '(c, s1) := make_chan s in
            let s2 := TimedBuf_Put (TimedPayload.mk c transfers) s1 in
            (Waiting c, s2)
        | None =>
            let '((results, err), s1) := client_CreateTransfers transfers s in
            (Returned (CreateTransfers_reply results err), s1)
        end
    end.

(** [CreateTransfers] from the receive on: [None] while nothing was sent
    on the channel. *)
Definition CreateTransfers_resume (c : chan) (s : State)
  : option (outcome proto.CreateTransfersReply.t * State) :=
  match chan_recv c s with
  | None => None
  | Some (resp, s1) =>
      Some (CreateTransfers_reply (TimedPayloadResponse.Results resp)
              (TimedPayloadResponse.Error resp), s1)
  end.

(** One call of [CreateTransfers] with no other call around it: where the
    call blocks, the deadline of the buffer passes and the call goes on
    with what it receives. *)
Definition CreateTransfers_alone (in_ : list proto.Transfer.t) (s : State)
  : option (exec proto.CreateTransfersReply.t * State) :=
  match CreateTransfers in_ s with
  | (Returned r, s1) => Some (r, s1)
  | (Waiting c, s1) =>
      match CreateTransfers_resume c (TimedBuf_Deadline s1) with
      | Some (r, s2) => Some (Normal r, s2)
      | None => None
      end
  end.

(** ** Construction *)

(** [NewApp]: the buffer is made when [IS_BUFFERED] is [true], with the
    size and the delay read from the environment.  [timedbuf.New] has one
    result in the source, so an error that the construction reports ends
    [NewApp] then and there, and no application is returned. *)
Definition NewApp (env : gmap string string) (tb : St) : outcome App :=
  if decide (Getenv env "IS_BUFFERED" = "true") then
    let bufSize := fst (strconv_Atoi (Getenv env "BUFFER_SIZE")) in
    let bufSize := if bufSize =? 0 then 1024 else bufSize in
    let '(bufDelay, err) := time_ParseDuration (Getenv env "BUFFER_DELAY") in
    let bufDelay :=
      match err with
      | Some _ => 100 * Millisecond
      | None => bufDelay
      end in
    match timedbuf.New bufSize bufDelay with
    | Reply buf => Reply (mkApp tb (Some buf))
    | Failure e => Failure e
    end
  else Reply (mkApp tb None).

(** The state in which a new application starts. *)
Definition boot (a : App) : State := mkState a ∅ [] [].

(** ** Runs of the buffer *)

(** What happens to the buffer: a producer puts an item, or the deadline
    timer fires.  The buffer treats them one at a time. *)
Inductive event : Type :=
| EvPut (item : TimedPayload.t)
| EvDeadline.

Definition step (s : State) (ev : event) : State :=
  match ev with
  | EvPut item => TimedBuf_Put item s
  | EvDeadline => TimedBuf_Deadline s
  end.

Definition run (evs : list event) (s : State) : State :=
  fold_left step evs s.

(** The items put during a run, in the order of the calls. *)
Fixpoint puts (evs : list event) : list TimedPayload.t :=
  match evs with
  | [] => []
  | EvPut item :: rest => item :: puts rest
  | EvDeadline :: rest => puts rest
  end.

(** The Batch that is live in a state. *)
Definition live_batch (s : State) : list TimedPayload.t :=
  match TimedBuf (app s) with
  | Some b => timedbuf.live b
  | None => []
  end.

(** ** Runs of the server *)

(** What happens to the server: a call of [CreateTransfers] arrives and
    runs until it ends or blocks, the deadline timer fires, or a receive
    on a channel is attempted.  A call that panics leaves the state as it
    found it; a run of the model goes on after it, where a server that the
    panic has ended makes no further step. *)
Inductive action : Type :=
| ActCreateTransfers (in_ : list proto.Transfer.t)
| ActDeadline
| ActReceive (c : chan).

Definition act (s : State) (a : action) : State :=
  match a with
  | ActCreateTransfers in_ => snd (CreateTransfers in_ s)
  | ActDeadline => TimedBuf_Deadline s
  | ActReceive c =>
      match CreateTransfers_resume c s with
      | Some (_, s') => s'
      | None => s
      end
  end.

(** Every payload of the live Batch has a channel that was made and on
    which nothing was sent yet. *)
Definition waiters_ready (s : State) : Prop :=
  forall p, p ∈ live_batch s -> chans s !! TimedPayload.c p = Some [].

(** ** Notions used in the statements *)

(** The payloads of a Batch laid end to end, in the order of the Batch. *)
Definition batch_transfers (payloads : list TimedPayload.t)
  : list types.Transfer.t :=
  concat (map TimedPayload.payload payloads).

(** The answer of the ledger to the transfers of a whole Batch, as the
    response that travels back: the FlushResult of the Batch. *)
Definition flush_result (payloads : list TimedPayload.t) (s : State)
  : TimedPayloadResponse.t :=
  let '((results, err), _) :=
    TB_CreateTransfers (batch_transfers payloads) (TB (app s)) in
  TimedPayloadResponse.mk results err.

(** The second loop of the flush callback: the response is sent to the
    channel of every payload. *)
Definition send_all (res : TimedPayloadResponse.t)
    (payloads : list TimedPayload.t) (s : State) : State :=
  fold_left (fun s' p => chan_send (TimedPayload.c p) res s') payloads s.

(** How often a channel occurs in a Batch. *)
Definition occurrences (c0 : chan) (payloads : list TimedPayload.t) : nat :=
  length (filter (fun p => TimedPayload.c p = c0) payloads).

(** The call of the ledger that the flush of a Batch makes. *)
Definition flush_call (payloads : list TimedPayload.t) : call :=
  CallCreateTransfers (batch_transfers payloads).

(** The names of the result codes of an answer, one per entry. *)
Definition result_names (results : list types.TransferEventResult.t)
  : list string :=
  map (fun r => CreateTransferResult_String (types.TransferEventResult.Result r))
    results.

(** The passthrough of the specification: translate the request, call the
    ledger directly on the translated sequence, and reply with what it
    answers. *)
Definition passthrough (in_ : list proto.Transfer.t) (tb : St)
  : exec proto.CreateTransfersReply.t :=
  transfers ← translateTransfers in_ [];
  let '((results, err), _) := TB_CreateTransfers transfers tb in
  match err with
  | Some e => Normal (Failure e)
  | None =>
      Normal (Reply (proto.CreateTransfersReply.mk (result_names results)))
  end.

(** The identifier translations that [CreateTransfers] and
    [CreateAccounts] attempt on one element. *)
Definition transfer_ids (x : proto.Transfer.t) : list (outcome types.Uint128) :=
  [ shared_HexStringToUint128 (proto.Transfer.Id x);
    shared_HexStringToUint128 (proto.Transfer.DebitAccountId x);
    shared_HexStringToUint128 (proto.Transfer.CreditAccountId x);
    shared_HexStringToUint128 (FromPtrOr (proto.Transfer.PendingId x) "");
    types_HexStringToUint128 (proto.Transfer.UserData128 x) ].

Definition account_ids (x : proto.Account.t) : list (outcome types.Uint128) :=
  [ shared_HexStringToUint128 (proto.Account.Id x);
    types_HexStringToUint128 (proto.Account.UserData128 x) ].

Definition fails {A : Type} (m : outcome A) : Prop :=
  exists e, m = Failure e.

(** A call that ends in an error. *)
Definition fails_with {A : Type} (m : exec A) : Prop :=
  exists e, m = Normal (Failure e).

(** What the translation fixes in a transfer, whatever the request. *)
Definition translated (x : proto.Transfer.t) (t : types.Transfer.t) : Prop :=
  types.Transfer.Code t = uint16 (proto.Transfer.Ledger x)
  /\ types.Transfer.Timeout t = 0
  /\ types.Transfer.Timestamp t = 0.

(** The buffer of an application, when it has one, was made with a
    capacity and a delay above 0. *)
Definition config_valid (a : App) : Prop :=
  match TimedBuf a with
  | Some b => 0 < timedbuf.capacity b /\ 0 < timedbuf.delay b
  | None => True
  end.

(** A request element with another [Code]. *)
Definition with_Code (k : Z) (x : proto.Transfer.t) : proto.Transfer.t :=
  proto.Transfer.mk
    (proto.Transfer.Id x) (proto.Transfer.DebitAccountId x)
    (proto.Transfer.CreditAccountId x) (proto.Transfer.Amount x)
    (proto.Transfer.PendingId x) (proto.Transfer.UserData128 x)
    (proto.Transfer.UserData64 x) (proto.Transfer.UserData32 x)
    (proto.Transfer.Ledger x) k (proto.Transfer.TransferFlags x).

End Server.

Arguments App St : clear implicits.
Arguments State St : clear implicits.

(** ** A reference instance of the collaborators

    Small definitions on which the model can be run.  The two parsers are
    written after the documented behaviour of the Go functions; the
    duration parser covers durations written without a decimal point and
    answers the others with an error. *)

Module Reference.

Definition code (a : Ascii.ascii) : Z := Z.of_N (Ascii.N_of_ascii a).

Definition is_digit (a : Ascii.ascii) : bool :=
  (48 <=? code a) && (code a <=? 57).

Definition hex_digit (a : Ascii.ascii) : option Z :=
  let n := code a in
  if (48 <=? n) && (n <=? 57) then Some (n - 48)
  else if (97 <=? n) && (n <=? 102) then Some (n - 87)
  else if (65 <=? n) && (n <=? 70) then Some (n - 55)
  else None.

Fixpoint hex_value (s : string) (acc : Z) : outcome Z :=
  match s with
  | EmptyString => Reply acc
  | String a rest =>
      match hex_digit a with
      | Some d => hex_value rest (acc * 16 + d)
      | None => Failure (ExternalError "encoding/hex: invalid byte")
      end
  end.

(** At most 32 hexadecimal digits, most significant first. *)
Definition HexStringToUint128 (s : string) : outcome Z :=
  if (32 <? String.length s)%nat
  then Failure (ExternalError "Uint128 hex string must not be more than 32 bytes")
  else hex_value s 0.

Definition bit (b : bool) (i : Z) : Z := if b then Z.shiftl 1 i else 0.

Definition AccountFlags_bits (f : types.AccountFlags.t) : Z :=
  Z.lor (bit (types.AccountFlags.Linked f) 0)
    (Z.lor (bit (types.AccountFlags.DebitsMustNotExceedCredits f) 1)
       (Z.lor (bit (types.AccountFlags.CreditsMustNotExceedDebits f) 2)
          (bit (types.AccountFlags.History f) 3))).

Definition TransferFlags_bits (f : types.TransferFlags.t) : Z :=
  Z.lor (bit (types.TransferFlags.Linked f) 0)
    (Z.lor (bit (types.TransferFlags.Pending f) 1)
       (Z.lor (bit (types.TransferFlags.PostPendingTransfer f) 2)
          (Z.lor (bit (types.TransferFlags.VoidPendingTransfer f) 3)
             (Z.lor (bit (types.TransferFlags.BalancingDebit f) 4)
                (bit (types.TransferFlags.BalancingCredit f) 5))))).

Definition AccountResult_name (r : Z) : string :=
  if r =? 0 then "AccountOK" else "AccountRejected".

Definition TransferResult_name (r : Z) : string :=
  if r =? 0 then "TransferOK" else "TransferRejected".

(** The digits of a decimal numeral as an unsigned 64-bit value, read from
    the left; the first digit that overflows, or the first byte that is
    not a digit, ends the scan. *)
Inductive scan : Type :=
| Value (n : Z)
| OutOfRange
| BadSyntax.

Fixpoint scan_digits (s : string) (n : Z) : scan :=
  match s with
  | EmptyString => Value n
  | String a rest =>
      if is_digit a then
        if (2 ^ 64 - 1) / 10 + 1 <=? n then OutOfRange
        else
          let n1 := n * 10 + (code a - 48) in
          if 2 ^ 64 - 1 <? n1 then OutOfRange else scan_digits rest n1
      else BadSyntax
  end.

Definition ErrSyntax : error := ExternalError "strconv.Atoi: invalid syntax".
Definition ErrRange : error := ExternalError "strconv.Atoi: value out of range".

(** [strconv.Atoi] where [int] has 64 bits: an optional sign and decimal
    digits; 0 with an error on bad syntax, the nearest bound with an error
    out of range. *)
Definition Atoi (s : string) : Z * option error :=
  let '(neg, digits) :=
    match s with
    | String "-"%char rest => (true, rest)
    | String "+"%char rest => (false, rest)
    | _ => (false, s)
    end in
  match digits with
  | EmptyString => (0, Some ErrSyntax)
  | _ =>
      match scan_digits digits 0 with
      | BadSyntax => (0, Some ErrSyntax)
      | OutOfRange =>
          (if neg then - 2 ^ 63 else 2 ^ 63 - 1, Some ErrRange)
      | Value un =>
          if negb neg && (2 ^ 63 <=? un) then (2 ^ 63 - 1, Some ErrRange)
          else if neg && (2 ^ 63 <? un) then (- 2 ^ 63, Some ErrRange)
          else (if neg then - un else un, None)
      end
  end.

(** The leading digits of [s] as a number, and the rest of [s]; [None]
    when the number passes [2^63]. *)
Fixpoint leadingInt (s : string) (x : Z) : option (Z * string) :=
  match s with
  | EmptyString => Some (x, s)
  | String a rest =>
      if is_digit a then
        if 2 ^ 63 / 10 <? x then None
        else
          let x1 := x * 10 + (code a - 48) in
          if 2 ^ 63 <? x1 then None else leadingInt rest x1
      else Some (x, s)
  end.

(** The unit at the head of [s]: the bytes before the next digit or
    point. *)
Fixpoint leadingUnit (s : string) : string * string :=
  match s with
  | EmptyString => (EmptyString, EmptyString)
  | String a rest =>
      if is_digit a || (code a =? 46) then (EmptyString, s)
      else let '(u, r) := leadingUnit rest in (String a u, r)
  end.

Definition micro1 : string :=
  String (Ascii.ascii_of_nat 194) (String (Ascii.ascii_of_nat 181) "s").
Definition micro2 : string :=
  String (Ascii.ascii_of_nat 206) (String (Ascii.ascii_of_nat 188) "s").

Definition unitMap (u : string) : option Z :=
  if String.eqb u "ns" then Some 1
  else if String.eqb u "us" then Some 1000
  else if String.eqb u micro1 then Some 1000
  else if String.eqb u micro2 then Some 1000
  else if String.eqb u "ms" then Some 1000000
  else if String.eqb u "s" then Some 1000000000
  else if String.eqb u "m" then Some (60 * 1000000000)
  else if String.eqb u "h" then Some (3600 * 1000000000)
  else None.

(** The terms of a duration, each a whole number and a unit, summed in
    nanoseconds as an unsigned 64-bit value. *)
Fixpoint terms (fuel : nat) (s : string) (d : Z) : option Z :=
  match s with
  | EmptyString => Some d
  | String a _ =>
      match fuel with
      | O => None
      | S fuel' =>
          if negb (is_digit a) then None
          else
            match leadingInt s 0 with
            | None => None
            | Some (v, s1) =>
                let '(u, s2) := leadingUnit s1 in
                match unitMap u with
                | None => None
                | Some unit =>
                    if 2 ^ 63 / unit <? v then None
                    else
                      let d1 := (d + v * unit) mod 2 ^ 64 in
                      if 2 ^ 63 <? d1 then None else terms fuel' s2 d1
                end
            end
      end
  end.

Definition ErrDuration : error := ExternalError "time: invalid duration".

(** [time.ParseDuration] on durations without a decimal point, in
    nanoseconds. *)
Definition ParseDuration (s : string) : Z * option error :=
  let '(neg, s1) :=
    match s with
    | String "-"%char rest => (true, rest)
    | String "+"%char rest => (false, rest)
    | _ => (false, s)
    end in
  if String.eqb s1 "0" then (0, None)
  else if String.eqb s1 "" then (0, Some ErrDuration)
  else
    match terms (String.length s1) s1 0 with
    | None => (0, Some ErrDuration)
    | Some d =>
        if neg then (- d, None)
        else if 2 ^ 63 - 1 <? d then (0, Some ErrDuration)
        else (d, None)
    end.

Global Instance library : Library := {|
  shared_HexStringToUint128 := HexStringToUint128;
  types_HexStringToUint128 := HexStringToUint128;
  AccountFlags_ToUint16 := AccountFlags_bits;
  TransferFlags_ToUint16 := TransferFlags_bits;
  CreateAccountResult_String := AccountResult_name;
  CreateTransferResult_String := TransferResult_name;
  strconv_Atoi := Atoi;
  time_ParseDuration := ParseDuration |}.

(** A ledger that takes a given number of further calls and answers every
    later one with an error.  It rejects (result 1) an account whose ledger
    is 0 and a transfer that debits the account it credits. *)
Fixpoint check_accounts (i : Z) (accounts : list types.Account.t)
  : list types.AccountEventResult.t :=
  match accounts with
  | [] => []
  | a :: rest =>
      (if types.Account.Ledger a =? 0
       then [types.AccountEventResult.mk i 1] else [])
      ++ check_accounts (i + 1) rest
  end.

Fixpoint check_transfers (i : Z) (transfers : list types.Transfer.t)
  : list types.TransferEventResult.t :=
  match transfers with
  | [] => []
  | t :: rest =>
      (if types.Transfer.DebitAccountID t =? types.Transfer.CreditAccountID t
       then [types.TransferEventResult.mk i 1] else [])
      ++ check_transfers (i + 1) rest
  end.

Definition ErrClosed : error := ExternalError "client closed".

Global Instance ledger : Client nat := {|
  TB_CreateAccounts := fun accounts n =>
    match n with
    | O => (([], Some ErrClosed), O)
    | S n' => ((check_accounts 0 accounts, None), n')
    end;
  TB_CreateTransfers := fun transfers n =>
    match n with
    | O => (([], Some ErrClosed), O)
    | S n' => ((check_transfers 0 transfers, None), n')
    end |}.

End Reference.

(** ** Concrete inputs *)

Module Examples.

Definition no_flags : proto.TransferFlags.t :=
  proto.TransferFlags.mk None None None None None None.

Definition no_account_flags : proto.AccountFlags.t :=
  proto.AccountFlags.mk None None None None.

(** Two transfers that translate, of two callers; the second debits the
    account it credits.  The first has a ledger above 16 bits and a code
    that differs from it. *)
Definition first_transfer : proto.Transfer.t :=
  proto.Transfer.mk "1" "a" "b" 10 None "" 0 0 700000 5 (Some no_flags).

Definition second_transfer : proto.Transfer.t :=
  proto.Transfer.mk "2" "c" "c" 10 None "" 0 0 1 5 (Some no_flags).

(** A transfer whose credit account is not hexadecimal, and an account
    whose identifier is not. *)
Definition bad_transfer : proto.Transfer.t :=
  proto.Transfer.mk "3" "a" "xyz" 10 None "" 0 0 1 5 (Some no_flags).

Definition bad_account : proto.Account.t :=
  proto.Account.mk "xyz" 0 0 0 0 "" 0 0 1 5 (Some no_account_flags).

Definition first_record : types.Transfer.t :=
  types.Transfer.mk 1 10 11 10 0 0 0 0 0 700000 44640 0 0.

Definition second_record : types.Transfer.t :=
  types.Transfer.mk 2 12 12 10 0 0 0 0 0 1 1 0 0.

(** A Batch of two payloads, of two callers that wait on the channels 0
    and 1, and a state in which both channels are made and empty; the
    ledger takes three more calls. *)
Definition two_payloads : list TimedPayload.t :=
  [TimedPayload.mk 0%nat [first_record];
   TimedPayload.mk 1%nat [second_record]].

Definition two_waiting (calls_left : nat) : State nat :=
  mkState
    (mkApp calls_left (Some (timedbuf.mk 3 (100 * Millisecond) two_payloads)))
    (<[0%nat := []]> (<[1%nat := []]> ∅)) [] [].

(** Environments: buffering with nothing else set, and buffering with a
    negative size and a delay of zero. *)
Definition env_defaults : gmap string string :=
  <["IS_BUFFERED" := "true"]> ∅.

Definition env_invalid : gmap string string :=
  <["IS_BUFFERED" := "true"]>
    (<["BUFFER_SIZE" := "-5"]> (<["BUFFER_DELAY" := "0s"]> ∅)).

End Examples.

(** ** The lookups *)

(** The methods of [tb.Client] that read accounts and transfers back. *)
Class Lookups (St : Type) : Type := {
  TB_LookupAccounts :
    list types.Uint128 -> St ->
    (list types.Account.t * option error) * St;
  TB_LookupTransfers :
    list types.Uint128 -> St ->
    (list types.Transfer.t * option error) * St }.

(** [AccountToProtoAccount] and [TransferToProtoTransfer], of the package
    but not among the sources. *)
Class Converters : Type := {
  AccountToProtoAccount : types.Account.t -> proto.Account.t;
  TransferToProtoTransfer : types.Transfer.t -> proto.Transfer.t }.

Module LookupAccountsReply.
Record t := mk { Accounts : list proto.Account.t }.
End LookupAccountsReply.

Module LookupTransfersReply.
Record t := mk { Transfers : list proto.Transfer.t }.
End LookupTransfersReply.

(** A lookup made on the client, with the identifiers it was given. *)
Inductive lookup : Type :=
| AskAccounts (ids : list types.Uint128)
| AskTransfers (ids : list types.Uint128).

(** The first error of a sequence of results, if there is one. *)
Fixpoint first_failure {A : Type} (ms : list (outcome A)) : option error :=
  match ms with
  | [] => None
  | Reply _ :: rest => first_failure rest
  | Failure e :: _ => Some e
  end.

Section Lookup.

Context {lib : Library} {conv : Converters} {St : Type}
  {client : Client St} {lookups : Lookups St}.

(** The loop of [LookupAccounts] and of [LookupTransfers], the same in
    both: [ids] grows by one identifier per element; the first error ends
    the call. *)
Fixpoint translateIDs (ins : list string) (ids : list types.Uint128)
  : outcome (list types.Uint128) :=
  match ins with
  | [] => Reply ids
  | inID :: rest =>
      match shared_HexStringToUint128 inID with
      | Failure e => Failure e
      | Reply id => translateIDs rest (ids ++ [id])
      end
  end.

(** [LookupAccounts], on the ledger behind the client: the reply or the
    error, the ledger after the call, and the lookups the call made. *)
Definition LookupAccounts (in_ : list string) (tb : St)
  : outcome LookupAccountsReply.t * St * list lookup :=
  if (length in_ =? 0)%nat then (Failure ErrZeroAccounts, tb, [])
  else
    match translateIDs in_ [] with
    | Failure e => (Failure e, tb, [])
    | Reply ids =>
        let '((res, err), tb') := TB_LookupAccounts ids tb in
        match err with
        | Some e => (Failure e, tb', [AskAccounts ids])
        | None =>
            (Reply (LookupAccountsReply.mk (map AccountToProtoAccount res)),
             tb', [AskAccounts ids])
        end
    end.

(** [LookupTransfers] *)
Definition LookupTransfers (in_ : list string) (tb : St)
  : outcome LookupTransfersReply.t * St * list lookup :=
  if (length in_ =? 0)%nat then (Failure ErrZeroTransfers, tb, [])
  else
    match translateIDs in_ [] with
    | Failure e => (Failure e, tb, [])
    | Reply ids =>
        let '((res, err), tb') := TB_LookupTransfers ids tb in
        match err with
        | Some e => (Failure e, tb', [AskTransfers ids])
        | None =>
            (Reply (LookupTransfersReply.mk (map TransferToProtoTransfer res)),
             tb', [AskTransfers ids])
        end
    end.

(** ** Notions used in the further statements *)

(** What ends the translation of a request before its end: the error of
    an identifier that does not translate, or the panic of the dereference
    of a sub-message that the element does not carry. *)
Inductive stop : Type :=
| StopError (e : error)
| StopPanic.

Definition id_check {A : Type} (m : outcome A) : option stop :=
  match m with
  | Reply _ => None
  | Failure e => Some (StopError e)
  end.

Definition flags_check {A : Type} (p : option A) : option stop :=
  match p with
  | Some _ => None
  | None => Some StopPanic
  end.

(** The first check of a sequence that does not pass, if there is one. *)
Fixpoint first_stop (checks : list (option stop)) : option stop :=
  match checks with
  | [] => None
  | None :: rest => first_stop rest
  | Some h :: _ => Some h
  end.

(** How a call that was stopped ends. *)
Definition stopped {A : Type} (h : stop) : exec A :=
  match h with
  | StopError e => Normal (Failure e)
  | StopPanic => Panic
  end.

(** The checks that the loop of [CreateTransfers] makes on one element, in
    the order in which it makes them: the flags are read after the
    identifier and before the debit account. *)
Definition transfer_checks (x : proto.Transfer.t) : list (option stop) :=
  [ id_check (shared_HexStringToUint128 (proto.Transfer.Id x));
    flags_check (proto.Transfer.TransferFlags x);
    id_check (shared_HexStringToUint128 (proto.Transfer.DebitAccountId x));
    id_check (shared_HexStringToUint128 (proto.Transfer.CreditAccountId x));
    id_check (shared_HexStringToUint128
                (FromPtrOr (proto.Transfer.PendingId x) ""));
    id_check (types_HexStringToUint128 (proto.Transfer.UserData128 x)) ].

(** The checks that the loop of [CreateAccounts] makes on one element: the
    flags are read after both identifiers. *)
Definition account_checks (x : proto.Account.t) : list (option stop) :=
  [ id_check (shared_HexStringToUint128 (proto.Account.Id x));
    id_check (types_HexStringToUint128 (proto.Account.UserData128 x));
    flags_check (proto.Account.Flags x) ].

(** The transfers that a call of [CreateTransfers] submits: none when the
    request is empty or its translation ends in an error or a panic. *)
Definition submission (in_ : list proto.Transfer.t)
  : option (list types.Transfer.t) :=
  if (length in_ =? 0)%nat then None
  else
    match translateTransfers in_ [] with
    | Normal (Reply transfers) => Some transfers
    | _ => None
    end.

(** The submissions of a run of the server, in the order of the calls. *)
Fixpoint submissions (acts : list action) : list (list types.Transfer.t) :=
  match acts with
  | [] => []
  | ActCreateTransfers in_ :: rest =>
      match submission in_ with
      | Some transfers => transfers :: submissions rest
      | None => submissions rest
      end
  | _ :: rest => submissions rest
  end.

(** The channels of the payloads of a Batch. *)
Definition batch_chans (payloads : list TimedPayload.t) : list chan :=
  map TimedPayload.c payloads.

(** The waiters of the live Batch are ready and no two of them wait on the
    same channel. *)
Definition waiters_apart (s : State St) : Prop :=
  waiters_ready s /\ NoDup (batch_chans (live_batch s)).

End Lookup.

(** ** More concrete inputs *)

Module MoreExamples.

(** The record that the ledger below holds for an identifier. *)
Definition account_of (id : Z) : types.Account.t :=
  types.Account.mk id 0 0 0 0 0 0 0 1 1 0.

Definition transfer_of (id : Z) : types.Transfer.t :=
  types.Transfer.mk id 1 2 10 0 0 0 0 0 1 1 0 0.

(** A ledger that answers a lookup with one record per identifier, in the
    order of the identifiers; it takes a given number of further calls. *)
Global Instance reader : Lookups nat := {|
  TB_LookupAccounts := fun ids n =>
    match n with
    | O => (([], Some Reference.ErrClosed), O)
    | S n' => ((map account_of ids, None), n')
    end;
  TB_LookupTransfers := fun ids n =>
    match n with
    | O => (([], Some Reference.ErrClosed), O)
    | S n' => ((map transfer_of ids, None), n')
    end |}.

Global Instance converters : Converters := {|
  AccountToProtoAccount := fun a =>
    proto.Account.mk "" (types.Account.DebitsPending a)
      (types.Account.DebitsPosted a) (types.Account.CreditsPending a)
      (types.Account.CreditsPosted a) "" (types.Account.UserData64 a)
      (types.Account.UserData32 a) (types.Account.Ledger a)
      (types.Account.Code a) (Some Examples.no_account_flags);
  TransferToProtoTransfer := fun t =>
    proto.Transfer.mk "" "" "" (types.Transfer.Amount t) None ""
      (types.Transfer.UserData64 t) (types.Transfer.UserData32 t)
      (types.Transfer.Ledger t) (types.Transfer.Code t)
      (Some Examples.no_flags) |}.

(** A transfer with a negative amount and a ledger above 32 bits. *)
Definition odd_transfer : proto.Transfer.t :=
  proto.Transfer.mk "4" "a" "b" (-1) None "" 0 0 (2 ^ 32 + 7) 5
    (Some Examples.no_flags).

(** A transfer with two identifiers that do not translate: the debit
    account, which is too long, and after it the user data, which is not
    hexadecimal. *)
Definition twice_bad_transfer : proto.Transfer.t :=
  proto.Transfer.mk "5" "000000000000000000000000000000000" "b" 10 None
    "data?" 0 0 1 5 (Some Examples.no_flags).

(** A transfer without flags whose debit account does not translate, and
    an account without flags whose identifiers translate. *)
Definition flagless_transfer : proto.Transfer.t :=
  proto.Transfer.mk "3" "xyz" "b" 10 None "" 0 0 1 5 None.

Definition flagless_account : proto.Account.t :=
  proto.Account.mk "7" 0 0 0 0 "" 0 0 1 5 None.

(** An account whose user data is too long. *)
Definition long_account : proto.Account.t :=
  proto.Account.mk "8" 0 0 0 0 "000000000000000000000000000000000" 0 0 1 5
    (Some Examples.no_account_flags).

Definition good_account : proto.Account.t :=
  proto.Account.mk "7" 0 0 0 0 "" 0 0 1 5 (Some Examples.no_account_flags).

(** Three payloads of three callers, the second with two transfers. *)
Definition three_payloads : list TimedPayload.t :=
  [TimedPayload.mk 0%nat [Examples.first_record];
   TimedPayload.mk 1%nat [Examples.second_record; Examples.first_record];
   TimedPayload.mk 2%nat [Examples.second_record]].

(** The error of an identifier of more than 32 digits. *)
Definition too_long : error :=
  ExternalError "Uint128 hex string must not be more than 32 bytes".

(** An environment that spells the switch in capitals, and gives a size
    and a delay. *)
Definition env_capitals : gmap string string :=
  <["IS_BUFFERED" := "TRUE"]>
    (<["BUFFER_SIZE" := "2"]> (<["BUFFER_DELAY" := "250ms"]> ∅)).

(** Two requests that translate, around one that is empty and one that
    does not translate, with a deadline and a receive in between. *)
Definition mixed_run : list action :=
  [ActCreateTransfers [Examples.first_transfer];
   ActCreateTransfers [];
   ActReceive 0%nat;
   ActCreateTransfers [Examples.bad_transfer];
   ActCreateTransfers [Examples.second_transfer; Examples.first_transfer]].

End MoreExamples.

(** * Properties *)

Section Flush.

Context {lib : Library} {St : Type} {client : Client St}.

Implicit Types (s : State St) (payloads : list TimedPayload.t).

(** ** Bookkeeping of the two loops of the flush callback *)

Lemma collect_loop payloads acc :
  fold_left (fun transfers p => transfers ++ TimedPayload.payload p)
    payloads acc
  = acc ++ batch_transfers payloads.
Proof.
  revert acc. induction payloads as [|p payloads IH]; intros acc; simpl.
  - unfold batch_transfers. simpl. by rewrite app_nil_r.
  - rewrite IH. unfold batch_transfers. simpl. by rewrite <- app_assoc.
Qed.

Lemma send_all_frame res payloads s :
  app (send_all res payloads s) = app s
  /\ calls (send_all res payloads s) = calls s
  /\ retired (send_all res payloads s) = retired s.
Proof.
  revert s. induction payloads as [|p payloads IH]; intros s; simpl; [done|].
  destruct (IH (chan_send (TimedPayload.c p) res s)) as (Ha & Hc & Hr).
  unfold send_all in *. simpl. by rewrite Ha, Hc, Hr.
Qed.

Lemma send_all_chans res payloads s c0 :
  chans (send_all res payloads s) !! c0
  = (fun q => q ++ replicate (occurrences c0 payloads) res) <$> chans s !! c0.
Proof.
  revert s. induction payloads as [|p payloads IH]; intros s.
  - simpl. destruct (chans s !! c0); simpl; [|done].
    by rewrite app_nil_r.
  - unfold send_all in *. simpl. rewrite IH. unfold occurrences. simpl.
    rewrite filter_cons. destruct (decide (TimedPayload.c p = c0)) as [->|Hne].
    + rewrite lookup_alter_eq. destruct (chans s !! c0); simpl; [|done].
      by rewrite <- app_assoc.
    + by rewrite lookup_alter_ne.
Qed.

Lemma occurrences_pos p payloads :
  p ∈ payloads -> (0 < occurrences (TimedPayload.c p) payloads)%nat.
Proof.
  intros Hin. unfold occurrences.
  assert (Hp : p ∈ filter (fun q => TimedPayload.c q = TimedPayload.c p) payloads)
    by (apply list_elem_of_filter; done).
  destruct (filter _ payloads); [by apply elem_of_nil in Hp | simpl; lia].
Qed.

(** The flush callback is one call of the ledger followed by the sends. *)
Lemma flushFn_eq payloads s :
  flushFn payloads s
  = send_all (flush_result payloads s) payloads
      (snd (client_CreateTransfers (batch_transfers payloads) s)).
Proof.
  unfold flushFn, flush_result, client_CreateTransfers.
  rewrite collect_loop. simpl.
  destruct (TB_CreateTransfers (batch_transfers payloads) (TB (app s)))
    as [[results err] tb']. reflexivity.
Qed.

Lemma flushFn_calls payloads s :
  calls (flushFn payloads s)
  = calls s ++ [CallCreateTransfers (batch_transfers payloads)].
Proof.
  rewrite flushFn_eq.
  destruct (send_all_frame (flush_result payloads s) payloads
              (snd (client_CreateTransfers (batch_transfers payloads) s)))
    as (_ & -> & _).
  unfold client_CreateTransfers.
  by destruct (TB_CreateTransfers _ _) as [[results err] tb'].
Qed.

Lemma flushFn_chans payloads s c0 :
  chans (flushFn payloads s) !! c0
  = (fun q => q ++ replicate (occurrences c0 payloads) (flush_result payloads s))
      <$> chans s !! c0.
Proof.
  rewrite flushFn_eq, send_all_chans.
  unfold client_CreateTransfers.
  by destruct (TB_CreateTransfers _ _) as [[results err] tb'].
Qed.

(** After the flush of a Batch, the RPC behind each of its payloads, whose
    channel had nothing in it, receives the FlushResult of the Batch. *)
Lemma flushFn_recv payloads s p :
  p ∈ payloads ->
  chans s !! TimedPayload.c p = Some [] ->
  exists s', chan_recv (TimedPayload.c p) (flushFn payloads s)
             = Some (flush_result payloads s, s').
Proof.
  intros Hin Hfresh. unfold chan_recv.
  rewrite flushFn_chans, Hfresh. simpl.
  pose proof (occurrences_pos p payloads Hin) as Hpos.
  destruct (occurrences (TimedPayload.c p) payloads); [lia|].
  simpl. eauto.
Qed.

Lemma reply_names results :
  fold_left
    (fun resArr r =>
       resArr ++
       [CreateTransferResult_String (types.TransferEventResult.Result r)])
    results []
  = result_names results.
Proof.
  enough (forall acc,
    fold_left
      (fun resArr r =>
         resArr ++
         [CreateTransferResult_String (types.TransferEventResult.Result r)])
      results acc = acc ++ result_names results) as Hgen by apply (Hgen []).
  induction results as [|r results IH]; intros acc; simpl.
  - by rewrite app_nil_r.
  - rewrite IH. by rewrite <- app_assoc.
Qed.

Lemma flush_result_eq payloads s :
  flush_result payloads s
  = TimedPayloadResponse.mk
      (fst (fst (TB_CreateTransfers (batch_transfers payloads) (TB (app s)))))
      (snd (fst (TB_CreateTransfers (batch_transfers payloads) (TB (app s))))).
Proof.
  unfold flush_result.
  by destruct (TB_CreateTransfers _ _) as [[results err] tb'].
Qed.

Lemma flushFn_frame payloads s :
  TimedBuf (app (flushFn payloads s)) = TimedBuf (app s)
  /\ retired (flushFn payloads s) = retired s
  /\ TB (app (flushFn payloads s))
     = snd (TB_CreateTransfers (batch_transfers payloads) (TB (app s))).
Proof.
  rewrite flushFn_eq.
  destruct (send_all_frame (flush_result payloads s) payloads
              (snd (client_CreateTransfers (batch_transfers payloads) s)))
    as (-> & _ & ->).
  unfold client_CreateTransfers.
  by destruct (TB_CreateTransfers _ _) as [[results err] tb'].
Qed.

(** ** The flush of one Batch *)

(** C1. The flush of a Batch makes one call of the ledger, and the
    sequence it passes is the payloads of the Batch laid end to end in the
    order in which they were put: for payloads [p1, ..., pn] the ledger
    sees [p1 ++ ... ++ pn], and moves on from that call. *)
Theorem flush_submits_concatenation payloads s :
  calls (flushFn payloads s)
  = calls s
    ++ [CallCreateTransfers (concat (map TimedPayload.payload payloads))]
  /\ TB (app (flushFn payloads s))
     = snd (TB_CreateTransfers
              (concat (map TimedPayload.payload payloads)) (TB (app s))).
Proof.
  split.
  - apply flushFn_calls.
  - apply flushFn_frame.
Qed.

(** C2. Every RPC whose payload is in a flushed Batch receives the same
    response, the answer of the ledger to the whole Batch (its results or
    its error), and replies with the names of all the results of the
    Batch, those of the transfers of the other callers included. *)
Theorem flush_fans_out payloads s :
  (forall p, p ∈ payloads -> chans s !! TimedPayload.c p = Some []) ->
  forall p, p ∈ payloads ->
  exists s',
    chan_recv (TimedPayload.c p) (flushFn payloads s)
    = Some (flush_result payloads s, s')
    /\ CreateTransfers_resume (TimedPayload.c p) (flushFn payloads s)
       = Some (match TimedPayloadResponse.Error (flush_result payloads s) with
               | Some e => Failure e
               | None =>
                   Reply (proto.CreateTransfersReply.mk
                            (result_names
                               (fst (fst (TB_CreateTransfers
                                            (batch_transfers payloads)
                                            (TB (app s)))))))
               end, s').
Proof.
  intros Hfresh p Hin.
  destruct (flushFn_recv payloads s p Hin (Hfresh p Hin)) as [s' Hrecv].
  exists s'. split; [exact Hrecv|].
  unfold CreateTransfers_resume. rewrite Hrecv.
  unfold CreateTransfers_reply. rewrite reply_names.
  rewrite flush_result_eq. simpl. reflexivity.
Qed.

(** C3. When the ledger answers the transfers of a Batch with an error,
    the ledger was called once for the Batch, every RPC whose payload is
    in the Batch receives a response with that error, and returns that
    error and no reply. *)
Theorem flush_failure_reaches_all payloads s e :
  snd (fst (TB_CreateTransfers
              (concat (map TimedPayload.payload payloads)) (TB (app s))))
  = Some e ->
  (forall p, p ∈ payloads -> chans s !! TimedPayload.c p = Some []) ->
  calls (flushFn payloads s) = calls s ++ [flush_call payloads]
  /\ forall p, p ∈ payloads ->
     exists resp s',
       chan_recv (TimedPayload.c p) (flushFn payloads s) = Some (resp, s')
       /\ TimedPayloadResponse.Error resp = Some e
       /\ CreateTransfers_resume (TimedPayload.c p) (flushFn payloads s)
          = Some (Failure e, s').
Proof.
  intros Herr Hfresh. split; [apply flushFn_calls|].
  intros p Hin.
  destruct (flushFn_recv payloads s p Hin (Hfresh p Hin)) as [s' Hrecv].
  assert (He : TimedPayloadResponse.Error (flush_result payloads s) = Some e).
  { rewrite flush_result_eq. simpl. exact Herr. }
  exists (flush_result payloads s), s'. split; [exact Hrecv|]. split; [exact He|].
  unfold CreateTransfers_resume. rewrite Hrecv.
  unfold CreateTransfers_reply. by rewrite He.
Qed.

End Flush.

Section Runs.

Context {lib : Library} {St : Type} {client : Client St}.

Implicit Types (s : State St) (b : timedbuf.TimedBuf TimedPayload.t).

(** ** What one event does to the buffer and to the histories *)

(** The Batches an event retires: none or one. *)
Lemma retire_frame r s b :
  TimedBuf (app s) = Some b ->
  TimedBuf (app (retire r s)) = Some b
  /\ retired (retire r s) = retired s ++ option_list r
  /\ calls (retire r s) = calls s ++ map flush_call (option_list r).
Proof.
  intros Hb. destruct r as [batch|]; simpl.
  - destruct (flushFn_frame batch
                (mkState (app s) (chans s) (calls s) (retired s ++ [batch])))
      as (-> & -> & _).
    rewrite flushFn_calls. simpl. done.
  - by rewrite !app_nil_r.
Qed.

Lemma Put_partition b item b' r :
  timedbuf.Put b item = (b', r) ->
  concat (option_list r) ++ timedbuf.live b' = timedbuf.live b ++ [item]
  /\ Forall (fun batch => batch <> []) (option_list r).
Proof.
  unfold timedbuf.Put.
  destruct (timedbuf.capacity b <=? Z.of_nat (length (timedbuf.live b ++ [item])));
    intros [= <- <-]; simpl.
  - rewrite !app_nil_r. split; [done|].
    constructor; [|constructor]. by destruct (timedbuf.live b).
  - done.
Qed.

Lemma Deadline_partition b b' r :
  timedbuf.Deadline b = (b', r) ->
  concat (option_list r) ++ timedbuf.live b' = timedbuf.live b
  /\ Forall (fun batch => batch <> []) (option_list r)
  /\ timedbuf.live b' = [].
Proof.
  unfold timedbuf.Deadline. destruct (timedbuf.live b) as [|p batch] eqn:Hlive;
    intros [= <- <-]; simpl.
  - by rewrite Hlive.
  - rewrite !app_nil_r. split; [done|]. split; [|done].
    constructor; [done|constructor].
Qed.

Lemma step_frame s b ev :
  TimedBuf (app s) = Some b ->
  exists b' new,
    TimedBuf (app (step s ev)) = Some b'
    /\ retired (step s ev) = retired s ++ new
    /\ calls (step s ev) = calls s ++ map flush_call new
    /\ concat new ++ timedbuf.live b' = timedbuf.live b ++ puts [ev]
    /\ Forall (fun batch => batch <> []) new
    /\ (ev = EvDeadline -> timedbuf.live b' = []).
Proof.
  intros Hb. destruct ev as [item|]; simpl.
  - unfold TimedBuf_Put. rewrite Hb.
    destruct (timedbuf.Put b item) as [b' r] eqn:Hput.
    destruct (Put_partition b item b' r Hput) as (Hpart & Hne).
    destruct (retire_frame r (set_TimedBuf b' s) b' eq_refl) as (H1 & H2 & H3).
    exists b', (option_list r). by repeat split.
  - unfold TimedBuf_Deadline. rewrite Hb.
    destruct (timedbuf.Deadline b) as [b' r] eqn:Hdl.
    destruct (Deadline_partition b b' r Hdl) as (Hpart & Hne & Hlive).
    destruct (retire_frame r (set_TimedBuf b' s) b' eq_refl) as (H1 & H2 & H3).
    exists b', (option_list r). rewrite app_nil_r. by repeat split.
Qed.

Lemma run_frame evs s b :
  TimedBuf (app s) = Some b ->
  exists b' new,
    TimedBuf (app (run evs s)) = Some b'
    /\ retired (run evs s) = retired s ++ new
    /\ calls (run evs s) = calls s ++ map flush_call new
    /\ concat new ++ timedbuf.live b' = timedbuf.live b ++ puts evs
    /\ Forall (fun batch => batch <> []) new.
Proof.
  revert s b. induction evs as [|ev evs IH]; intros s b Hb.
  - exists b, []. simpl. by rewrite !app_nil_r.
  - destruct (step_frame s b ev Hb) as (b1 & new1 & Hb1 & Hr1 & Hc1 & Hp1 & Hn1 & _).
    destruct (IH (step s ev) b1 Hb1) as (b2 & new2 & Hb2 & Hr2 & Hc2 & Hp2 & Hn2).
    exists b2, (new1 ++ new2). unfold run in *. simpl.
    rewrite Hb2, Hr2, Hc2, Hr1, Hc1.
    rewrite map_app, concat_app, <- !app_assoc.
    repeat split; [|by apply Forall_app].
    rewrite Hp2. rewrite app_assoc, Hp1.
    rewrite <- app_assoc. by destruct ev.
Qed.

(** ** Every item is flushed once *)

(** C4. Run a buffer, empty and with any capacity and delay, through any
    sequence of puts and deadlines.  The ledger is called once for each
    Batch retired, in order, with the payloads of that Batch laid end to
    end; the Batches retired, followed by the Batch still live, are the
    items put, in the order of the puts, so that no item is dropped and
    none is in two Batches; no Batch retired is empty; and once the
    deadline has passed nothing is left live. *)
Theorem run_flushes_each_item_once (size maxDelay : Z) (tb : St)
    (evs : list event) :
  let s := run evs (boot (mkApp tb (Some (timedbuf.mk size maxDelay [])))) in
  calls s
  = map (fun batch =>
           CallCreateTransfers (concat (map TimedPayload.payload batch)))
      (retired s)
  /\ length (calls s) = length (retired s)
  /\ concat (retired s) ++ live_batch s = puts evs
  /\ Forall (fun batch => batch <> []) (retired s)
  /\ live_batch (step s EvDeadline) = []
  /\ concat (retired (step s EvDeadline)) = puts evs.
Proof.
  intros s. subst s.
  set (s0 := boot (mkApp tb (Some (timedbuf.mk size maxDelay [])))).
  destruct (run_frame evs s0 (timedbuf.mk size maxDelay []) eq_refl)
    as (b & new & Hb & Hr & Hc & Hp & Hn).
  simpl in Hr, Hc, Hp.
  assert (Hcalls : calls (run evs s0) = map flush_call (retired (run evs s0)))
    by (by rewrite Hr, Hc).
  split; [exact Hcalls|].
  split; [by rewrite Hcalls, length_map|].
  split; [by unfold live_batch; rewrite Hb, Hr|].
  split; [by rewrite Hr|].
  destruct (step_frame (run evs s0) b EvDeadline Hb)
    as (b1 & new1 & Hb1 & Hr1 & _ & Hp1 & _ & Hlive).
  specialize (Hlive eq_refl). simpl in Hp1.
  rewrite Hlive in Hp1. rewrite !app_nil_r in Hp1.
  split; [by unfold live_batch; rewrite Hb1|].
  by rewrite Hr1, Hr, concat_app, Hp1.
Qed.

End Runs.

Section Passthrough.

Context {lib : Library} {St : Type} {client : Client St}.

Implicit Types (s : State St) (b : timedbuf.TimedBuf TimedPayload.t).

Lemma chan_recv_frame c0 s v s' :
  chan_recv c0 s = Some (v, s') ->
  app s' = app s /\ calls s' = calls s /\ retired s' = retired s.
Proof.
  unfold chan_recv. destruct (chans s !! c0) as [[|v0 q]|]; [done| |done].
  by intros [= <- <-].
Qed.

Lemma make_chan_fresh s c0 s1 :
  make_chan s = (c0, s1) ->
  chans s1 !! c0 = Some []
  /\ app s1 = app s /\ calls s1 = calls s /\ retired s1 = retired s.
Proof.
  unfold make_chan. intros [= <- <-]. simpl.
  by rewrite lookup_insert_eq.
Qed.

Lemma set_TimedBuf_id s b :
  TimedBuf (app s) = Some b -> set_TimedBuf b s = s.
Proof.
  destruct s as [[tb tbuf] ch cl rt]. simpl. by intros ->.
Qed.

(** A call that is alone in the buffer: whichever of the capacity and the
    deadline retires its Batch, the Batch is the one payload of the call. *)
Lemma alone_in_buffer s b item :
  TimedBuf (app s) = Some b ->
  timedbuf.live b = [] ->
  exists s0,
    TimedBuf_Deadline (TimedBuf_Put item s) = flushFn [item] s0
    /\ chans s0 = chans s /\ TB (app s0) = TB (app s) /\ calls s0 = calls s.
Proof.
  intros Hb Hlive. unfold TimedBuf_Put. rewrite Hb.
  unfold timedbuf.Put. rewrite Hlive, app_nil_l.
  destruct (timedbuf.capacity b <=? _).
  - cbn [retire]. unfold TimedBuf_Deadline.
    match goal with |- context [flushFn [item] ?st] => set (s0 := st) end.
    destruct (flushFn_frame [item] s0) as (Hbuf & _ & _).
    rewrite Hbuf. exists s0. split; [|done].
    apply set_TimedBuf_id. exact Hbuf.
  - cbn [retire]. unfold TimedBuf_Deadline.
    eexists. split; [reflexivity|]. done.
Qed.

Lemma passthrough_reply in_ transfers tb :
  translateTransfers in_ [] = Reply transfers ->
  passthrough in_ tb
  = CreateTransfers_reply (fst (fst (TB_CreateTransfers transfers tb)))
      (snd (fst (TB_CreateTransfers transfers tb))).
Proof.
  intros Htr. unfold passthrough. rewrite Htr. simpl.
  destruct (TB_CreateTransfers transfers tb) as [[results err] tb']. simpl.
  unfold CreateTransfers_reply. rewrite reply_names. by destruct err.
Qed.

(** ** Buffered and unbuffered replies agree *)

(** C5. Without a buffer, [CreateTransfers] on a request that is not empty
    returns what the ledger answers when it is called directly on the
    translated transfers.  With a buffer that holds nothing else, the same
    request receives the same reply, or the same error, and leaves the
    ledger in the same state after the same calls. *)
Theorem passthrough_equivalence s b (in_ : list proto.Transfer.t) :
  TimedBuf (app s) = None ->
  timedbuf.live b = [] ->
  in_ <> [] ->
  exists s1 s2,
    CreateTransfers in_ s = (Returned (passthrough in_ (TB (app s))), s1)
    /\ CreateTransfers_alone in_ (set_TimedBuf b s)
       = Some (passthrough in_ (TB (app s)), s2)
    /\ TB (app s2) = TB (app s1)
    /\ calls s2 = calls s1.
Proof.
  intros Hnil Hlive Hne.
  unfold CreateTransfers_alone, CreateTransfers.
  destruct in_ as [|x in_]; [done|].
  change ((length (x :: in_) =? 0)%nat) with false. cbv iota.
  destruct (translateTransfers (x :: in_) []) as [[transfers|e]|] eqn:Htr.
  - rewrite Hnil.
    rewrite (passthrough_reply _ transfers _ Htr).
    change (TimedBuf (app (set_TimedBuf b s))) with (Some b). cbv iota.
    destruct (make_chan (set_TimedBuf b s)) as [c0 sc] eqn:Hmk.
    destruct (make_chan_fresh _ _ _ Hmk) as (Hc0 & Happ & Hcalls & _).
    set (item := TimedPayload.mk c0 transfers).
    assert (Hb : TimedBuf (app sc) = Some b) by (by rewrite Happ).
    destruct (alone_in_buffer sc b item Hb Hlive) as (s0 & -> & Hch & Htb & Hcl).
    assert (Hin : item ∈ [item]) by apply list_elem_of_here.
    assert (Hfresh : chans s0 !! TimedPayload.c item = Some [])
      by (by rewrite Hch).
    destruct (flushFn_recv [item] s0 item Hin Hfresh) as [s2 Hrecv].
    destruct (chan_recv_frame _ _ _ _ Hrecv) as (Happ2 & Hcalls2 & _).
    destruct (flushFn_frame [item] s0) as (_ & _ & Htb2).
    assert (Hbt : batch_transfers [item] = transfers).
    { unfold batch_transfers. simpl. apply app_nil_r. }
    assert (Htb0 : TB (app s0) = TB (app s)).
    { rewrite Htb, Happ. reflexivity. }
    unfold CreateTransfers_resume. simpl in Hrecv. rewrite Hrecv.
    rewrite flush_result_eq, Hbt, Htb0. simpl.
    unfold client_CreateTransfers.
    destruct (TB_CreateTransfers transfers (TB (app s)))
      as [[results err] tb'] eqn:Hcall.
    eexists _, s2. split; [reflexivity|]. split; [reflexivity|].
    rewrite Hbt, Htb0, Hcall in Htb2.
    cbn [TB app calls]. rewrite Happ2, Hcalls2, Htb2, flushFn_calls, Hbt.
    by rewrite Hcl, Hcalls.
  - unfold passthrough. rewrite Htr. simpl.
    eexists _, _. split; [reflexivity|]. split; [reflexivity|]. done.
  - unfold passthrough. rewrite Htr. simpl.
    eexists _, _. split; [reflexivity|]. split; [reflexivity|]. done.
Qed.

End Passthrough.

Section Requests.

Context {lib : Library} {St : Type} {client : Client St}.

Implicit Types (s : State St).

(** ** Empty requests *)

(** C8. A request with no element is turned away at once:
    [CreateTransfers] returns [ErrZeroTransfers] and [CreateAccounts]
    returns [ErrZeroAccounts], and in both cases the state is the one the
    call found, so nothing was put into the buffer, no channel was made and
    the ledger was not called. *)
Theorem empty_request_rejected s :
  CreateTransfers [] s = (Returned (Failure ErrZeroTransfers), s)
  /\ CreateAccounts [] s = (Normal (Failure ErrZeroAccounts), s).
Proof. split; reflexivity. Qed.

(** ** The translated transfer *)

Lemma translateTransfer_fields x t :
  translateTransfer x = Reply t -> translated x t.
Proof.
  unfold translateTransfer.
  destruct (shared_HexStringToUint128 (proto.Transfer.Id x)); [simpl|done].
  destruct (proto.Transfer.TransferFlags x); [simpl|done].
  destruct (shared_HexStringToUint128 (proto.Transfer.DebitAccountId x));
    [simpl|done].
  destruct (shared_HexStringToUint128 (proto.Transfer.CreditAccountId x));
    [simpl|done].
  destruct (shared_HexStringToUint128 (FromPtrOr (proto.Transfer.PendingId x) ""));
    [simpl|done].
  destruct (types_HexStringToUint128 (proto.Transfer.UserData128 x));
    [simpl|done].
  intros [= <-]. by repeat split.
Qed.

Lemma translateTransfers_fields ins acc transfers :
  translateTransfers ins acc = Reply transfers ->
  exists new, transfers = acc ++ new /\ Forall2 translated ins new.
Proof.
  revert acc. induction ins as [|x ins IH]; intros acc; simpl.
  - intros [= <-]. exists []. by rewrite app_nil_r.
  - destruct (translateTransfer x) as [[t|e]|] eqn:Hx; [|done|done].
    intros Hrest. destruct (IH _ Hrest) as (new & -> & Hall).
    exists (t :: new). rewrite <- app_assoc. split; [done|].
    constructor; [|done]. by apply translateTransfer_fields.
Qed.

Lemma translateTransfers_Code k ins acc :
  translateTransfers (map (with_Code k) ins) acc = translateTransfers ins acc.
Proof.
  revert acc. induction ins as [|x ins IH]; intros acc; simpl; [done|].
  change (translateTransfer (with_Code k x)) with (translateTransfer x).
  destruct (translateTransfer x) as [[t|e]|]; [apply IH | done | done].
Qed.

(** C9. In the sequence that [CreateTransfers] makes of a request, each
    transfer has for [Code] the [Ledger] of its request element cut to 16
    bits, and 0 for [Timeout] and [Timestamp]; the [Code] of the request
    element plays no part: with any other value there, the sequence is the
    same. *)
Theorem transfer_code_is_ledger (in_ : list proto.Transfer.t)
    (transfers : list types.Transfer.t) :
  translateTransfers in_ [] = Reply transfers ->
  Forall2
    (fun x t =>
       types.Transfer.Code t = proto.Transfer.Ledger x mod 2 ^ 16
       /\ types.Transfer.Timeout t = 0
       /\ types.Transfer.Timestamp t = 0)
    in_ transfers
  /\ forall k, translateTransfers (map (with_Code k) in_) [] = Reply transfers.
Proof.
  intros Htr. split.
  - destruct (translateTransfers_fields _ _ _ Htr) as (new & -> & Hall).
    exact Hall.
  - intros k. by rewrite translateTransfers_Code.
Qed.

(** ** Requests that do not translate *)

Lemma translateTransfer_failure x e :
  translateTransfer x = Failure e -> Failure e ∈ transfer_ids x.
Proof.
  unfold translateTransfer, transfer_ids.
  destruct (shared_HexStringToUint128 (proto.Transfer.Id x)); simpl;
    [|intros [= ->]; set_solver].
  destruct (proto.Transfer.TransferFlags x); simpl; [|done].
  destruct (shared_HexStringToUint128 (proto.Transfer.DebitAccountId x)); simpl;
    [|intros [= ->]; set_solver].
  destruct (shared_HexStringToUint128 (proto.Transfer.CreditAccountId x)); simpl;
    [|intros [= ->]; set_solver].
  destruct (shared_HexStringToUint128 (FromPtrOr (proto.Transfer.PendingId x) ""));
    simpl; [|intros [= ->]; set_solver].
  destruct (types_HexStringToUint128 (proto.Transfer.UserData128 x)); simpl;
    [done|intros [= ->]; set_solver].
Qed.

(** An element with an identifier that does not translate is not
    translated; when it carries its flags, its translation ends in an
    error. *)
Lemma translateTransfer_fails x :
  Exists fails (transfer_ids x) ->
  (forall t, translateTransfer x <> Reply t)
  /\ (is_Some (proto.Transfer.TransferFlags x) -> fails_with (translateTransfer x)).
Proof.
  unfold translateTransfer, transfer_ids, fails_with, fails.
  destruct (shared_HexStringToUint128 (proto.Transfer.Id x)); simpl;
    [|by eauto].
  destruct (proto.Transfer.TransferFlags x); simpl;
    [|intros _; split; [done|]; by intros [? ?]].
  destruct (shared_HexStringToUint128 (proto.Transfer.DebitAccountId x)); simpl;
    [|by eauto].
  destruct (shared_HexStringToUint128 (proto.Transfer.CreditAccountId x)); simpl;
    [|by eauto].
  destruct (shared_HexStringToUint128 (FromPtrOr (proto.Transfer.PendingId x) ""));
    simpl; [|by eauto].
  destruct (types_HexStringToUint128 (proto.Transfer.UserData128 x)); simpl;
    [|by eauto].
  intros Hex. repeat (apply Exists_cons in Hex as [[e He]|Hex]; [done|]).
  by apply Exists_nil in Hex.
Qed.

Lemma translateTransfers_fails ins acc :
  Exists (fun x => Exists fails (transfer_ids x)) ins ->
  (forall transfers, translateTransfers ins acc <> Reply transfers)
  /\ (Forall (fun x => is_Some (proto.Transfer.TransferFlags x)) ins ->
      exists e x,
        translateTransfers ins acc = Failure e
        /\ x ∈ ins /\ Failure e ∈ transfer_ids x).
Proof.
  revert acc. induction ins as [|x ins IH]; intros acc Hex.
  - by apply Exists_nil in Hex.
  - simpl. destruct (translateTransfer x) as [[t|e]|] eqn:Hx.
    + apply Exists_cons in Hex as [Hhead|Htail].
      * destruct (translateTransfer_fails x Hhead) as [Hnot _].
        by destruct (Hnot t).
      * destruct (IH (acc ++ [t]) Htail) as [Hnot Hflags].
        split; [exact Hnot|]. intros Hall. apply Forall_cons in Hall as [_ Hall].
        destruct (Hflags Hall) as (e & y & -> & Hy & He).
        exists e, y. split; [done|]. split; [by apply list_elem_of_further|done].
    + split; [done|]. intros _. exists e, x. split; [done|].
      split; [apply list_elem_of_here | by apply translateTransfer_failure].
    + split; [done|]. intros Hall. apply Forall_cons in Hall as [Hflags _].
      apply Exists_cons in Hex as [Hhead|Htail].
      * destruct (translateTransfer_fails x Hhead) as [_ Hfail].
        destruct (Hfail Hflags) as [e He]. congruence.
      * exfalso. revert Hx. unfold translateTransfer.
        destruct (shared_HexStringToUint128 (proto.Transfer.Id x)); simpl;
          [|done].
        destruct Hflags as [f ->]. simpl.
        destruct (shared_HexStringToUint128 (proto.Transfer.DebitAccountId x));
          simpl; [|done].
        destruct (shared_HexStringToUint128 (proto.Transfer.CreditAccountId x));
          simpl; [|done].
        destruct (shared_HexStringToUint128
                    (FromPtrOr (proto.Transfer.PendingId x) "")); simpl; [|done].
        by destruct (types_HexStringToUint128 (proto.Transfer.UserData128 x)).
Qed.

Lemma translateAccount_failure x e :
  translateAccount x = Failure e -> Failure e ∈ account_ids x.
Proof.
  unfold translateAccount, account_ids.
  destruct (shared_HexStringToUint128 (proto.Account.Id x)); simpl;
    [|intros [= ->]; set_solver].
  destruct (types_HexStringToUint128 (proto.Account.UserData128 x)); simpl;
    [|intros [= ->]; set_solver].
  by destruct (proto.Account.Flags x).
Qed.

Lemma translateAccount_fails x :
  Exists fails (account_ids x) ->
  (forall a, translateAccount x <> Reply a)
  /\ fails_with (translateAccount x).
Proof.
  unfold translateAccount, account_ids, fails_with, fails.
  destruct (shared_HexStringToUint128 (proto.Account.Id x)); simpl; [|by eauto].
  destruct (types_HexStringToUint128 (proto.Account.UserData128 x)); simpl;
    [|by eauto].
  intros Hex. repeat (apply Exists_cons in Hex as [[e He]|Hex]; [done|]).
  by apply Exists_nil in Hex.
Qed.

Lemma translateAccounts_fails ins acc :
  Exists (fun x => Exists fails (account_ids x)) ins ->
  (forall accounts, translateAccounts ins acc <> Reply accounts)
  /\ (Forall (fun x => is_Some (proto.Account.Flags x)) ins ->
      exists e x,
        translateAccounts ins acc = Failure e
        /\ x ∈ ins /\ Failure e ∈ account_ids x).
Proof.
  revert acc. induction ins as [|x ins IH]; intros acc Hex.
  - by apply Exists_nil in Hex.
  - simpl. destruct (translateAccount x) as [[a|e]|] eqn:Hx.
    + apply Exists_cons in Hex as [Hhead|Htail].
      * destruct (translateAccount_fails x Hhead) as [Hnot _].
        by destruct (Hnot a).
      * destruct (IH (acc ++ [a]) Htail) as [Hnot Hflags].
        split; [exact Hnot|]. intros Hall. apply Forall_cons in Hall as [_ Hall].
        destruct (Hflags Hall) as (e & y & -> & Hy & He).
        exists e, y. split; [done|]. split; [by apply list_elem_of_further|done].
    + split; [done|]. intros _. exists e, x. split; [done|].
      split; [apply list_elem_of_here | by apply translateAccount_failure].
    + split; [done|]. intros Hall. apply Forall_cons in Hall as [Hflags _].
      exfalso. revert Hx. unfold translateAccount.
      destruct (shared_HexStringToUint128 (proto.Account.Id x)); simpl; [|done].
      destruct (types_HexStringToUint128 (proto.Account.UserData128 x)); simpl;
        [|done].
      by destruct Hflags as [f ->].
Qed.

(** C10, as amended.  When an identifier of some element of a request
    does not translate, the call ends without a reply and the state is the
    one the call found: the ledger was not called and nothing was put into
    the buffer, for no element of the request.  When moreover every
    element of the request carries its flags, the call returns an error,
    which is the error of the translation of an identifier of an element
    of the request.  This holds for [CreateTransfers] and for
    [CreateAccounts]. *)
Theorem translation_failure_is_atomic s :
  (forall in_ : list proto.Transfer.t,
     Exists (fun x => Exists fails (transfer_ids x)) in_ ->
     (exists r,
        CreateTransfers in_ s = (Returned r, s)
        /\ forall reply, r <> Reply reply)
     /\ (Forall (fun x => is_Some (proto.Transfer.TransferFlags x)) in_ ->
         exists e x,
           CreateTransfers in_ s = (Returned (Failure e), s)
           /\ x ∈ in_ /\ Failure e ∈ transfer_ids x))
  /\ (forall in_ : list proto.Account.t,
        Exists (fun x => Exists fails (account_ids x)) in_ ->
        (exists r,
           CreateAccounts in_ s = (r, s)
           /\ forall reply, r <> Reply reply)
        /\ (Forall (fun x => is_Some (proto.Account.Flags x)) in_ ->
            exists e x,
              CreateAccounts in_ s = (Normal (Failure e), s)
              /\ x ∈ in_ /\ Failure e ∈ account_ids x)).
Proof.
  split; intros in_ Hex.
  - destruct (translateTransfers_fails in_ [] Hex) as [Hnot Hflags].
    unfold CreateTransfers.
    destruct in_ as [|y in_]; [by apply Exists_nil in Hex|].
    change ((length (y :: in_) =? 0)%nat) with false. cbv iota. split.
    + destruct (translateTransfers (y :: in_) []) as [[transfers|e]|].
      * by destruct (Hnot transfers).
      * by eexists.
      * by eexists.
    + intros Hall. destruct (Hflags Hall) as (e & x & -> & Hx & He).
      by exists e, x.
  - destruct (translateAccounts_fails in_ [] Hex) as [Hnot Hflags].
    unfold CreateAccounts.
    destruct in_ as [|y in_]; [by apply Exists_nil in Hex|].
    change ((length (y :: in_) =? 0)%nat) with false. cbv iota. split.
    + destruct (translateAccounts (y :: in_) []) as [[accounts|e]|].
      * by destruct (Hnot accounts).
      * by eexists.
      * by eexists.
    + intros Hall. destruct (Hflags Hall) as (e & x & -> & Hx & He).
      by exists e, x.
Qed.

End Requests.

Section Construction.

Context {lib : Library} {St : Type} {client : Client St}.

(** What [NewApp] hands to [timedbuf.New], and what it does with the
    result. *)
Lemma NewApp_buffered env (tb : St) :
  Getenv env "IS_BUFFERED" = "true" ->
  NewApp env tb
  = match
      timedbuf.New
        (if fst (strconv_Atoi (Getenv env "BUFFER_SIZE")) =? 0 then 1024
         else fst (strconv_Atoi (Getenv env "BUFFER_SIZE")))
        (match snd (time_ParseDuration (Getenv env "BUFFER_DELAY")) with
         | Some _ => 100 * Millisecond
         | None => fst (time_ParseDuration (Getenv env "BUFFER_DELAY"))
         end)
    with
    | Reply buf => Reply (mkApp tb (Some buf))
    | Failure e => Failure e
    end.
Proof.
  intros Hon. unfold NewApp. rewrite decide_True by exact Hon.
  by destruct (time_ParseDuration (Getenv env "BUFFER_DELAY")) as [d [e|]].
Qed.

Lemma New_valid {T : Type} (size maxDelay : Z) :
  0 < size -> 0 < maxDelay ->
  timedbuf.New (T := T) size maxDelay = Reply (timedbuf.mk size maxDelay []).
Proof.
  intros Hs Hd. unfold timedbuf.New.
  destruct (Z.ltb_spec 0 size); [|lia].
  destruct (Z.ltb_spec 0 maxDelay); [done|lia].
Qed.

Lemma New_invalid {T : Type} (size maxDelay : Z) :
  size <= 0 \/ maxDelay <= 0 ->
  timedbuf.New (T := T) size maxDelay = Failure timedbuf.ErrConfiguration.
Proof.
  intros Hbad. unfold timedbuf.New.
  destruct (Z.ltb_spec 0 size); destruct (Z.ltb_spec 0 maxDelay); simpl;
    (done || lia).
Qed.

Lemma New_result {T : Type} (size maxDelay : Z) (buf : timedbuf.TimedBuf T) :
  timedbuf.New size maxDelay = Reply buf ->
  buf = timedbuf.mk size maxDelay [] /\ 0 < size /\ 0 < maxDelay.
Proof.
  unfold timedbuf.New.
  destruct (Z.ltb_spec 0 size); destruct (Z.ltb_spec 0 maxDelay); simpl;
    [|done|done|done].
  by intros [= <-].
Qed.

Lemma NewApp_valid env (tb : St) (a : App St) :
  NewApp env tb = Reply a -> config_valid a /\ live_batch (boot a) = [].
Proof.
  unfold NewApp, config_valid, live_batch, boot.
  destruct (decide (Getenv env "IS_BUFFERED" = "true")) as [Hon|Hoff];
    [|by intros [= <-]].
  destruct (time_ParseDuration (Getenv env "BUFFER_DELAY")) as [d err].
  cbv zeta.
  match goal with |- context [timedbuf.New ?sz ?dl] =>
    destruct (timedbuf.New (T := TimedPayload.t) sz dl) as [buf|e] eqn:Hnew
  end; [|done].
  intros [= <-]. apply New_result in Hnew as (-> & Hs & Hd). by simpl.
Qed.

(** ** Construction from the environment *)

(** C6.  With buffering on, [NewApp] hands to the construction of the
    buffer the size that [BUFFER_SIZE] parses to (1024 in place of 0) and
    the delay that [BUFFER_DELAY] parses to (100 ms when it does not
    parse), with no check of its own.  When the capacity or the delay so
    handed over is not above 0, the construction reports a configuration
    error and [NewApp] ends with it, returning no application; otherwise
    [NewApp] returns the application with an empty buffer of that capacity
    and delay.  So an application that [NewApp] returns never holds a
    buffer with a capacity or a delay that is not above 0: nothing is left
    for the time of the calls. *)
Theorem NewApp_reports_invalid_configuration env (tb : St) :
  Getenv env "IS_BUFFERED" = "true" ->
  let size :=
    if fst (strconv_Atoi (Getenv env "BUFFER_SIZE")) =? 0 then 1024
    else fst (strconv_Atoi (Getenv env "BUFFER_SIZE")) in
  let maxDelay :=
    match snd (time_ParseDuration (Getenv env "BUFFER_DELAY")) with
    | Some _ => 100 * Millisecond
    | None => fst (time_ParseDuration (Getenv env "BUFFER_DELAY"))
    end in
  (size <= 0 \/ maxDelay <= 0 ->
   NewApp env tb = Failure timedbuf.ErrConfiguration)
  /\ (0 < size /\ 0 < maxDelay ->
      NewApp env tb = Reply (mkApp tb (Some (timedbuf.mk size maxDelay []))))
  /\ (forall a, NewApp env tb = Reply a -> config_valid a).
Proof.
  intros Hon size maxDelay.
  pose proof (NewApp_buffered env tb Hon) as Heq.
  fold size in Heq. fold maxDelay in Heq. split; [|split].
  - intros Hbad. rewrite Heq. by rewrite (New_invalid size maxDelay Hbad).
  - intros [Hs Hd]. rewrite Heq. by rewrite (New_valid size maxDelay Hs Hd).
  - intros a Ha. by destruct (NewApp_valid env tb a Ha).
Qed.

(** C7. With buffering on, the capacity handed to the construction of the
    buffer is 1024 when [BUFFER_SIZE] is not set ([strconv.Atoi] giving 0
    for the empty string) or parses to 0, and the delay handed to it is
    100 ms, in nanoseconds, when [BUFFER_DELAY] does not parse as a
    duration; the buffer of the application that [NewApp] returns has that
    capacity and that delay. *)
Theorem NewApp_defaults env (tb : St) :
  Getenv env "IS_BUFFERED" = "true" ->
  fst (strconv_Atoi "") = 0 ->
  exists size maxDelay,
    NewApp env tb
    = match timedbuf.New size maxDelay with
      | Reply buf => Reply (mkApp tb (Some buf))
      | Failure e => Failure e
      end
    /\ (env !! "BUFFER_SIZE" = None
        \/ fst (strconv_Atoi (Getenv env "BUFFER_SIZE")) = 0 ->
        size = 1024)
    /\ (snd (time_ParseDuration (Getenv env "BUFFER_DELAY")) <> None ->
        maxDelay = 100000000)
    /\ (forall a,
          NewApp env tb = Reply a ->
          exists b,
            TimedBuf a = Some b
            /\ timedbuf.capacity b = size
            /\ timedbuf.delay b = maxDelay).
Proof.
  intros Hon Hempty. eexists _, _.
  split; [exact (NewApp_buffered env tb Hon)|]. split; [|split].
  - intros Hsize.
    assert (Hz : fst (strconv_Atoi (Getenv env "BUFFER_SIZE")) = 0).
    { destruct Hsize as [Habsent|Hz]; [|exact Hz].
      unfold Getenv. rewrite Habsent. exact Hempty. }
    by rewrite Hz.
  - intros Herr.
    by destruct (snd (time_ParseDuration (Getenv env "BUFFER_DELAY"))).
  - intros a. rewrite (NewApp_buffered env tb Hon).
    match goal with |- context [timedbuf.New ?sz ?dl] =>
      destruct (timedbuf.New (T := TimedPayload.t) sz dl) as [buf|e] eqn:Hnew
    end; [|done].
    intros [= <-]. apply New_result in Hnew as (-> & _ & _).
    by eexists.
Qed.

End Construction.

Section Reachable.

Context {lib : Library} {St : Type} {client : Client St}.

Implicit Types (s : State St).

(** ** The waiters of the live Batch

    The two statements on the fan-out of a flush ask that the channel of
    every payload be made and empty.  This holds of the live Batch in every
    state that the server reaches. *)

Lemma live_batch_flushed payloads s b :
  TimedBuf (app s) = Some b ->
  timedbuf.live b = [] ->
  live_batch (flushFn payloads s) = [].
Proof.
  intros Hb Hlive. unfold live_batch.
  destruct (flushFn_frame payloads s) as (-> & _ & _). by rewrite Hb.
Qed.

Lemma Deadline_waiters_ready s : waiters_ready (TimedBuf_Deadline s).
Proof.
  intros p. unfold TimedBuf_Deadline.
  destruct (TimedBuf (app s)) as [b|] eqn:Hb.
  - unfold timedbuf.Deadline.
    destruct (timedbuf.live b) as [|p0 batch] eqn:Hlive; cbn [retire].
    + unfold live_batch. rewrite set_TimedBuf_id by exact Hb.
      rewrite Hb, Hlive. by intros ?%elem_of_nil.
    + erewrite live_batch_flushed; [by intros ?%elem_of_nil| |]; reflexivity.
  - unfold live_batch. rewrite Hb. by intros ?%elem_of_nil.
Qed.

Lemma Put_waiters_ready s item :
  waiters_ready s ->
  chans s !! TimedPayload.c item = Some [] ->
  waiters_ready (TimedBuf_Put item s).
Proof.
  intros Hready Hitem p. unfold TimedBuf_Put.
  destruct (TimedBuf (app s)) as [b|] eqn:Hb; [|by apply Hready].
  unfold timedbuf.Put. destruct (timedbuf.capacity b <=? _); cbn [retire].
  - erewrite live_batch_flushed; [by intros ?%elem_of_nil| |]; reflexivity.
  - unfold live_batch. simpl. intros [Hp| ->%list_elem_of_singleton]%elem_of_app.
    + apply Hready. unfold live_batch. by rewrite Hb.
    + exact Hitem.
Qed.

Lemma act_waiters_ready s a : waiters_ready s -> waiters_ready (act s a).
Proof.
  intros Hready. destruct a as [in_| |c0]; simpl.
  - unfold CreateTransfers. destruct (length in_ =? 0)%nat; [done|].
    destruct (translateTransfers in_ []) as [[transfers|e]|]; [|done|done].
    destruct (TimedBuf (app s)) as [b|] eqn:Hb.
    + destruct (make_chan s) as [c0 s1] eqn:Hmk. simpl.
      apply Put_waiters_ready.
      * intros p Hp. unfold make_chan in Hmk. injection Hmk as <- <-.
        unfold live_batch in Hp. simpl in *.
        destruct (decide (fresh (dom (chans s)) = TimedPayload.c p)) as [<-|Hne].
        -- by rewrite lookup_insert_eq.
        -- rewrite lookup_insert_ne by done. by apply Hready.
      * by destruct (make_chan_fresh _ _ _ Hmk) as (Hc0 & _).
    + unfold client_CreateTransfers.
      destruct (TB_CreateTransfers transfers (TB (app s))) as [[results err] tb'].
      simpl. intros p. unfold live_batch. simpl. rewrite Hb.
      by intros ?%elem_of_nil.
  - apply Deadline_waiters_ready.
  - unfold CreateTransfers_resume.
    destruct (chan_recv c0 s) as [[resp s1]|] eqn:Hrecv; [|done].
    unfold chan_recv in Hrecv.
    destruct (chans s !! c0) as [[|v q]|] eqn:Hc0; [done| |done].
    injection Hrecv as <- <-. intros p Hp. simpl.
    assert (Hp' : chans s !! TimedPayload.c p = Some []) by (by apply Hready).
    rewrite lookup_insert_ne; [done|]. intros Heq. congruence.
Qed.

(** In every state reached from the start, the waiters of the live Batch
    are ready for the flush. *)
Lemma reachable_waiters_ready env (tb : St) (a0 : App St)
    (acts : list action) :
  NewApp env tb = Reply a0 ->
  waiters_ready (fold_left act acts (boot a0)).
Proof.
  intros Hnew.
  assert (Hboot : waiters_ready (boot a0)).
  { intros p. destruct (NewApp_valid env tb a0 Hnew) as [_ ->].
    by intros ?%elem_of_nil. }
  revert Hboot. generalize (boot a0).
  induction acts as [|a acts IH]; intros s Hs; simpl; [done|].
  apply IH. by apply act_waiters_ready.
Qed.

End Reachable.

Section Translation.

Context {lib : Library} {St : Type} {client : Client St}.

Implicit Types (s : State St).

(** ** Where a request that does not translate stops *)

Lemma translateTransfer_first x :
  match translateTransfer x with
  | Normal (Reply _) => first_stop (transfer_checks x) = None
  | Normal (Failure e) => first_stop (transfer_checks x) = Some (StopError e)
  | Panic => first_stop (transfer_checks x) = Some StopPanic
  end.
Proof.
  unfold translateTransfer, transfer_checks.
  destruct (shared_HexStringToUint128 (proto.Transfer.Id x)); simpl; [|done].
  destruct (proto.Transfer.TransferFlags x); simpl; [|done].
  destruct (shared_HexStringToUint128 (proto.Transfer.DebitAccountId x)); simpl;
    [|done].
  destruct (shared_HexStringToUint128 (proto.Transfer.CreditAccountId x)); simpl;
    [|done].
  destruct (shared_HexStringToUint128 (FromPtrOr (proto.Transfer.PendingId x) ""));
    simpl; [|done].
  by destruct (types_HexStringToUint128 (proto.Transfer.UserData128 x)).
Qed.

Lemma translateAccount_first x :
  match translateAccount x with
  | Normal (Reply _) => first_stop (account_checks x) = None
  | Normal (Failure e) => first_stop (account_checks x) = Some (StopError e)
  | Panic => first_stop (account_checks x) = Some StopPanic
  end.
Proof.
  unfold translateAccount, account_checks.
  destruct (shared_HexStringToUint128 (proto.Account.Id x)); simpl; [|done].
  destruct (types_HexStringToUint128 (proto.Account.UserData128 x)); simpl;
    [|done].
  by destruct (proto.Account.Flags x).
Qed.

Lemma first_stop_app (checks checks' : list (option stop)) :
  first_stop (checks ++ checks')
  = match first_stop checks with
    | Some h => Some h
    | None => first_stop checks'
    end.
Proof.
  induction checks as [|[h|] checks IH]; simpl; done.
Qed.

Lemma translateTransfers_first ins acc :
  match first_stop (concat (map transfer_checks ins)) with
  | Some h => translateTransfers ins acc = stopped h
  | None =>
      exists new,
        translateTransfers ins acc = Reply (acc ++ new)
        /\ Forall2 (fun x t => translateTransfer x = Reply t) ins new
  end.
Proof.
  revert acc. induction ins as [|x ins IH]; intros acc.
  - simpl. exists []. by rewrite app_nil_r.
  - cbn [translateTransfers map concat]. rewrite first_stop_app.
    pose proof (translateTransfer_first x) as Hx.
    destruct (translateTransfer x) as [[t|e]|] eqn:Ht; rewrite Hx; [|done|done].
    specialize (IH (acc ++ [t])).
    destruct (first_stop (concat (map transfer_checks ins))) as [h|]; [done|].
    destruct IH as (new & -> & Hall).
    exists (t :: new). rewrite <- app_assoc. split; [done|].
    by constructor.
Qed.

Lemma translateAccounts_first ins acc :
  match first_stop (concat (map account_checks ins)) with
  | Some h => translateAccounts ins acc = stopped h
  | None =>
      exists new,
        translateAccounts ins acc = Reply (acc ++ new)
        /\ Forall2 (fun x a => translateAccount x = Reply a) ins new
  end.
Proof.
  revert acc. induction ins as [|x ins IH]; intros acc.
  - simpl. exists []. by rewrite app_nil_r.
  - cbn [translateAccounts map concat]. rewrite first_stop_app.
    pose proof (translateAccount_first x) as Hx.
    destruct (translateAccount x) as [[a|e]|] eqn:Ha; rewrite Hx; [|done|done].
    specialize (IH (acc ++ [a])).
    destruct (first_stop (concat (map account_checks ins))) as [h|]; [done|].
    destruct IH as (new & -> & Hall).
    exists (a :: new). rewrite <- app_assoc. split; [done|].
    by constructor.
Qed.

(** X1. [CreateTransfers] on a request that does not translate ends at
    the first check that does not pass, the elements taken in order and,
    within an element, the checks in the order identifier, flags, debit
    account, credit account, pending identifier, user data.  If that check
    is an identifier, the call returns the error of its translation; if it
    is the flags, which the element does not carry, the call panics.  In
    both cases the state is the one the call found. *)
Theorem CreateTransfers_first_stop (in_ : list proto.Transfer.t) s h :
  first_stop (concat (map transfer_checks in_)) = Some h ->
  CreateTransfers in_ s = (Returned (stopped h), s).
Proof.
  intros Hfirst. unfold CreateTransfers.
  destruct in_ as [|x in_]; [done|].
  change ((length (x :: in_) =? 0)%nat) with false. cbv iota.
  pose proof (translateTransfers_first (x :: in_) []) as Htr.
  rewrite Hfirst in Htr. rewrite Htr. by destruct h.
Qed.

(** X2. [CreateAccounts] on a request that does not translate ends at the
    first check that does not pass, the elements taken in order and,
    within an element, the checks in the order identifier, user data,
    flags.  If that check is an identifier, the call returns the error of
    its translation; if it is the flags, which the element does not carry,
    the call panics.  In both cases the state is the one the call
    found. *)
Theorem CreateAccounts_first_stop (in_ : list proto.Account.t) s h :
  first_stop (concat (map account_checks in_)) = Some h ->
  CreateAccounts in_ s = (stopped h, s).
Proof.
  intros Hfirst. unfold CreateAccounts.
  destruct in_ as [|x in_]; [done|].
  change ((length (x :: in_) =? 0)%nat) with false. cbv iota.
  pose proof (translateAccounts_first (x :: in_) []) as Htr.
  rewrite Hfirst in Htr. rewrite Htr. by destruct h.
Qed.

(** ** Requests that translate *)

Lemma account_reply_names (resp : list types.AccountEventResult.t) :
  fold_left
    (fun resArr r =>
       resArr ++
       [CreateAccountResult_String (types.AccountEventResult.Result r)])
    resp []
  = map (fun r => CreateAccountResult_String (types.AccountEventResult.Result r))
      resp.
Proof.
  enough (forall acc,
    fold_left
      (fun resArr r =>
         resArr ++
         [CreateAccountResult_String (types.AccountEventResult.Result r)])
      resp acc
    = acc ++ map (fun r => CreateAccountResult_String
                             (types.AccountEventResult.Result r)) resp)
    as Hgen by apply (Hgen []).
  induction resp as [|r resp IH]; intros acc; simpl.
  - by rewrite app_nil_r.
  - rewrite IH. by rewrite <- app_assoc.
Qed.

(** X3. Without a buffer, a request of transfers that is not empty and
    passes every check (its identifiers all translate and every element
    carries its flags) makes one call of the ledger, with one
    transfer per element of the request, each the translation of its
    element, in the order of the request.  The call returns the error of
    the ledger if there is one, and otherwise the names of the results of
    the ledger, one per result and in their order; it makes no channel and
    retires nothing. *)
Theorem CreateTransfers_direct (in_ : list proto.Transfer.t) s :
  TimedBuf (app s) = None ->
  in_ <> [] ->
  first_stop (concat (map transfer_checks in_)) = None ->
  exists transfers,
    Forall2 (fun x t => translateTransfer x = Reply t) in_ transfers
    /\ CreateTransfers in_ s
       = (Returned
            (match snd (fst (TB_CreateTransfers transfers (TB (app s)))) with
             | Some e => Failure e
             | None =>
                 Reply (proto.CreateTransfersReply.mk
                          (result_names
                             (fst (fst (TB_CreateTransfers transfers
                                          (TB (app s)))))))
             end),
          mkState
            (mkApp (snd (TB_CreateTransfers transfers (TB (app s)))) None)
            (chans s) (calls s ++ [CallCreateTransfers transfers])
            (retired s)).
Proof.
  intros Hnil Hne Hfirst. unfold CreateTransfers.
  destruct in_ as [|x in_]; [done|].
  change ((length (x :: in_) =? 0)%nat) with false. cbv iota.
  pose proof (translateTransfers_first (x :: in_) []) as Htr.
  rewrite Hfirst in Htr. destruct Htr as (transfers & -> & Hall).
  exists transfers. split; [exact Hall|].
  change ([] ++ transfers) with transfers. cbv iota.
  rewrite Hnil. unfold client_CreateTransfers. rewrite Hnil.
  destruct (TB_CreateTransfers transfers (TB (app s))) as [[results err] tb'].
  simpl. unfold CreateTransfers_reply. rewrite reply_names. by destruct err.
Qed.

(** X4. A request of accounts that is not empty and passes every check
    (its identifiers all translate and every element carries its flags)
    makes one call of the ledger, with one account per element
    of the request, each the translation of its element, in the order of
    the request, whether the application has a buffer or not: the buffer,
    its live Batch and the channels are as the call found them.  The call
    returns the error of the ledger if there is one, and otherwise the
    names of the results of the ledger, one per result and in their
    order. *)
Theorem CreateAccounts_direct (in_ : list proto.Account.t) s :
  in_ <> [] ->
  first_stop (concat (map account_checks in_)) = None ->
  exists accounts,
    Forall2 (fun x a => translateAccount x = Reply a) in_ accounts
    /\ CreateAccounts in_ s
       = (match snd (fst (TB_CreateAccounts accounts (TB (app s)))) with
          | Some e => Normal (Failure e)
          | None =>
              Normal (Reply (proto.CreateAccountsReply.mk
                       (map (fun r =>
                               CreateAccountResult_String
                                 (types.AccountEventResult.Result r))
                          (fst (fst (TB_CreateAccounts accounts
                                       (TB (app s))))))))
          end,
          mkState
            (mkApp (snd (TB_CreateAccounts accounts (TB (app s))))
               (TimedBuf (app s)))
            (chans s) (calls s ++ [CallCreateAccounts accounts])
            (retired s)).
Proof.
  intros Hne Hfirst. unfold CreateAccounts.
  destruct in_ as [|x in_]; [done|].
  change ((length (x :: in_) =? 0)%nat) with false. cbv iota.
  pose proof (translateAccounts_first (x :: in_) []) as Htr.
  rewrite Hfirst in Htr. destruct Htr as (accounts & -> & Hall).
  exists accounts. split; [exact Hall|].
  change ([] ++ accounts) with accounts. cbv iota.
  unfold client_CreateAccounts.
  destruct (TB_CreateAccounts accounts (TB (app s))) as [[resp err] tb'].
  simpl. destruct err as [e|]; [done|]. by rewrite account_reply_names.
Qed.

(** ** The numbers of a translated record *)

Lemma uint16_of_uint32 (x : Z) : uint32 x mod 2 ^ 16 = uint16 x.
Proof.
  unfold uint32, uint16.
  apply Z.mod_mod_divide. exists (2 ^ 16). lia.
Qed.

(** X5. In a translated transfer the amount and the 64-bit user data lie
    below [2^64] and the 32-bit user data and the ledger below [2^32],
    whatever the request holds.  A value of the request within the range
    of its field goes through as it is; a negative amount [x] (of 64 bits)
    becomes [x + 2^64], and a ledger beyond 32 bits loses its high
    bits. *)
Theorem transfer_numbers_wrap (x : proto.Transfer.t) (t : types.Transfer.t) :
  translateTransfer x = Reply t ->
  (0 <= types.Transfer.Amount t < 2 ^ 64
   /\ 0 <= types.Transfer.UserData64 t < 2 ^ 64
   /\ 0 <= types.Transfer.UserData32 t < 2 ^ 32
   /\ 0 <= types.Transfer.Ledger t < 2 ^ 32)
  /\ (0 <= proto.Transfer.Amount x < 2 ^ 64 ->
      types.Transfer.Amount t = proto.Transfer.Amount x)
  /\ (- 2 ^ 63 <= proto.Transfer.Amount x < 0 ->
      types.Transfer.Amount t = proto.Transfer.Amount x + 2 ^ 64)
  /\ (0 <= proto.Transfer.Ledger x < 2 ^ 32 ->
      types.Transfer.Ledger t = proto.Transfer.Ledger x)
  /\ (2 ^ 32 <= proto.Transfer.Ledger x < 2 ^ 33 ->
      types.Transfer.Ledger t = proto.Transfer.Ledger x - 2 ^ 32).
Proof.
  unfold translateTransfer.
  destruct (shared_HexStringToUint128 (proto.Transfer.Id x)); [simpl|done].
  destruct (proto.Transfer.TransferFlags x); [simpl|done].
  destruct (shared_HexStringToUint128 (proto.Transfer.DebitAccountId x));
    [simpl|done].
  destruct (shared_HexStringToUint128 (proto.Transfer.CreditAccountId x));
    [simpl|done].
  destruct (shared_HexStringToUint128 (FromPtrOr (proto.Transfer.PendingId x) ""));
    [simpl|done].
  destruct (types_HexStringToUint128 (proto.Transfer.UserData128 x));
    [simpl|done].
  intros [= <-]. cbn [types.Transfer.Amount types.Transfer.UserData64
    types.Transfer.UserData32 types.Transfer.Ledger].
  unfold types.ToUint128, uint64, uint32.
  repeat split; try (apply Z.mod_pos_bound; lia).
  - intros H. by apply Z.mod_small.
  - intros H.
    rewrite <- (Z.mod_add (proto.Transfer.Amount x) 1 (2 ^ 64)) by lia.
    apply Z.mod_small. lia.
  - intros H. by apply Z.mod_small.
  - intros H.
    rewrite <- (Z.mod_add (proto.Transfer.Ledger x) (-1) (2 ^ 32)) by lia.
    apply Z.mod_small. lia.
Qed.

(** X6. In a translated transfer the code is the ledger of that same
    transfer cut to 16 bits: the two are equal exactly when the ledger is
    below 65536, and the code is always below 65536. *)
Theorem transfer_code_follows_ledger (x : proto.Transfer.t)
    (t : types.Transfer.t) :
  translateTransfer x = Reply t ->
  types.Transfer.Code t = types.Transfer.Ledger t mod 2 ^ 16
  /\ 0 <= types.Transfer.Code t < 2 ^ 16
  /\ (types.Transfer.Code t = types.Transfer.Ledger t
      <-> types.Transfer.Ledger t < 2 ^ 16).
Proof.
  intros Htr.
  assert (Hcode : types.Transfer.Code t = uint16 (proto.Transfer.Ledger x))
    by (by destruct (translateTransfer_fields x t Htr)).
  assert (Hledger : types.Transfer.Ledger t = uint32 (proto.Transfer.Ledger x)).
  { revert Htr. unfold translateTransfer.
    destruct (shared_HexStringToUint128 (proto.Transfer.Id x)); [simpl|done].
    destruct (proto.Transfer.TransferFlags x); [simpl|done].
    destruct (shared_HexStringToUint128 (proto.Transfer.DebitAccountId x));
      [simpl|done].
    destruct (shared_HexStringToUint128 (proto.Transfer.CreditAccountId x));
      [simpl|done].
    destruct (shared_HexStringToUint128
                (FromPtrOr (proto.Transfer.PendingId x) "")); [simpl|done].
    destruct (types_HexStringToUint128 (proto.Transfer.UserData128 x));
      [simpl|done].
    by intros [= <-]. }
  assert (Hrel : types.Transfer.Code t = types.Transfer.Ledger t mod 2 ^ 16)
    by (by rewrite Hcode, Hledger, uint16_of_uint32).
  assert (Hlow : 0 <= types.Transfer.Ledger t)
    by (rewrite Hledger; apply Z.mod_pos_bound; lia).
  assert (Hbound : 0 <= types.Transfer.Code t < 2 ^ 16)
    by (rewrite Hrel; apply Z.mod_pos_bound; lia).
  split; [exact Hrel|]. split; [exact Hbound|]. split.
  - intros Heq. lia.
  - intros Hsmall. rewrite Hrel. apply Z.mod_small. lia.
Qed.

(** X7. In a translated account the four balances and the 64-bit user
    data lie below [2^64], the 32-bit user data and the ledger below
    [2^32] and the code below [2^16]; the code comes from the code of the
    request and the ledger from its ledger, and each goes through as it is
    when it is within the range of its field. *)
Theorem account_numbers_wrap (x : proto.Account.t) (a : types.Account.t) :
  translateAccount x = Reply a ->
  (0 <= types.Account.DebitsPending a < 2 ^ 64
   /\ 0 <= types.Account.DebitsPosted a < 2 ^ 64
   /\ 0 <= types.Account.CreditsPending a < 2 ^ 64
   /\ 0 <= types.Account.CreditsPosted a < 2 ^ 64
   /\ 0 <= types.Account.UserData64 a < 2 ^ 64
   /\ 0 <= types.Account.UserData32 a < 2 ^ 32
   /\ 0 <= types.Account.Ledger a < 2 ^ 32
   /\ 0 <= types.Account.Code a < 2 ^ 16)
  /\ types.Account.Code a = proto.Account.Code x mod 2 ^ 16
  /\ types.Account.Ledger a = proto.Account.Ledger x mod 2 ^ 32
  /\ (0 <= proto.Account.Code x < 2 ^ 16 ->
      types.Account.Code a = proto.Account.Code x)
  /\ (0 <= proto.Account.Ledger x < 2 ^ 32 ->
      types.Account.Ledger a = proto.Account.Ledger x).
Proof.
  unfold translateAccount.
  destruct (shared_HexStringToUint128 (proto.Account.Id x)); [simpl|done].
  destruct (types_HexStringToUint128 (proto.Account.UserData128 x));
    [simpl|done].
  destruct (proto.Account.Flags x); [simpl|done].
  intros [= <-]. simpl.
  unfold types.ToUint128, uint64, uint32, uint16.
  repeat split; try (apply Z.mod_pos_bound; lia).
  - intros H. by apply Z.mod_small.
  - intros H. by apply Z.mod_small.
Qed.

End Translation.

Section FlushMore.

Context {lib : Library} {St : Type} {client : Client St}.

Implicit Types (s : State St) (payloads : list TimedPayload.t).

(** ** What a flush does to the channels *)

Lemma occurrences_none c0 payloads :
  c0 ∉ batch_chans payloads -> occurrences c0 payloads = 0%nat.
Proof.
  unfold occurrences, batch_chans.
  induction payloads as [|p payloads IH]; intros Hnot; [done|].
  rewrite filter_cons. simpl in Hnot.
  apply not_elem_of_cons in Hnot as [Hne Hrest].
  destruct (decide (TimedPayload.c p = c0)) as [Heq|_]; [congruence|].
  by apply IH.
Qed.

(** X8. A flush makes no channel and removes none, leaves alone every
    channel that no payload of the Batch carries, and adds to each other
    channel, after what it held, one copy of the response of the Batch for
    each payload that carries it. *)
Theorem flush_touches_only_its_batch payloads s :
  dom (chans (flushFn payloads s)) = dom (chans s)
  /\ (forall c0, c0 ∉ map TimedPayload.c payloads ->
      chans (flushFn payloads s) !! c0 = chans s !! c0)
  /\ (forall c0 q, chans s !! c0 = Some q ->
      chans (flushFn payloads s) !! c0
      = Some (q ++ replicate
                     (length (filter (fun p => TimedPayload.c p = c0) payloads))
                     (flush_result payloads s))).
Proof.
  split; [|split].
  - apply set_eq. intros c0. rewrite !elem_of_dom, flushFn_chans.
    by rewrite fmap_is_Some.
  - intros c0 Hnot. rewrite flushFn_chans.
    rewrite (occurrences_none c0 payloads Hnot). simpl.
    destruct (chans s !! c0); simpl; [|done]. by rewrite app_nil_r.
  - intros c0 q Hq. by rewrite flushFn_chans, Hq.
Qed.

(** ** Where the transfers of a caller lie in the call of the flush *)

Lemma batch_transfers_app payloads payloads' :
  batch_transfers (payloads ++ payloads')
  = batch_transfers payloads ++ batch_transfers payloads'.
Proof.
  unfold batch_transfers. by rewrite map_app, concat_app.
Qed.

(** X9. In the one sequence that the flush of a Batch passes to the
    ledger, the transfers of a payload lie together and in their order,
    after all the transfers of the payloads before it: the [k]-th transfer
    of the payload is at the position [k] plus the number of transfers
    before the payload; and the sequence has as many transfers as the
    payloads together. *)
Theorem flush_positions (pre post : list TimedPayload.t) (p : TimedPayload.t)
    s (k : nat) (t : types.Transfer.t) :
  TimedPayload.payload p !! k = Some t ->
  exists transfers,
    calls (flushFn (pre ++ p :: post) s)
    = calls s ++ [CallCreateTransfers transfers]
    /\ transfers !! (length (batch_transfers pre) + k)%nat = Some t
    /\ length transfers
       = (length (batch_transfers pre) + length (TimedPayload.payload p)
          + length (batch_transfers post))%nat.
Proof.
  intros Hk. exists (batch_transfers (pre ++ p :: post)).
  split; [apply flushFn_calls|].
  rewrite batch_transfers_app.
  change (batch_transfers (p :: post))
    with (TimedPayload.payload p ++ batch_transfers post).
  split.
  - rewrite lookup_app_r by lia.
    replace (length (batch_transfers pre) + k - length (batch_transfers pre))%nat
      with k by lia.
    by apply lookup_app_l_Some.
  - rewrite !length_app. lia.
Qed.

End FlushMore.

Section LookupFacts.

Context {lib : Library} {conv : Converters} {St : Type}
  {client : Client St} {lookups : Lookups St}.

(** ** The lookups *)

Lemma translateIDs_first ins acc :
  match translateIDs ins acc with
  | Reply ids =>
      first_failure (map shared_HexStringToUint128 ins) = None
      /\ exists new,
           ids = acc ++ new
           /\ Forall2 (fun x id => shared_HexStringToUint128 x = Reply id)
                ins new
  | Failure e => first_failure (map shared_HexStringToUint128 ins) = Some e
  end.
Proof.
  revert acc. induction ins as [|x ins IH]; intros acc.
  - simpl. split; [done|]. exists []. by rewrite app_nil_r.
  - cbn [translateIDs map first_failure].
    destruct (shared_HexStringToUint128 x) as [id|e] eqn:Hx; [|done].
    specialize (IH (acc ++ [id])).
    destruct (translateIDs ins (acc ++ [id])) as [ids|e]; [|done].
    destruct IH as (Hnone & new & -> & Hall). split; [done|].
    exists (id :: new). rewrite <- app_assoc. split; [done|].
    by constructor.
Qed.

(** X10. [LookupAccounts] asks the ledger at most once.  An empty
    request returns [ErrZeroAccounts] and the ledger is not asked.  When an
    identifier of the request does not translate it returns the error of
    the first that does not, and the ledger is not asked.  When the
    request is not empty and all its identifiers translate, the ledger is
    asked once, for the translated identifiers, one per element and in the
    order of the request; the call returns the error of the ledger, or one
    account per record that the ledger answers, in the order of the
    answer. *)
Theorem LookupAccounts_asks_once (in_ : list string) (tb : St) :
  LookupAccounts [] tb = (Failure ErrZeroAccounts, tb, [])
  /\ (forall e,
     first_failure (map shared_HexStringToUint128 in_) = Some e ->
     LookupAccounts in_ tb = (Failure e, tb, []))
  /\ (in_ <> [] ->
      first_failure (map shared_HexStringToUint128 in_) = None ->
      exists ids,
        Forall2 (fun x id => shared_HexStringToUint128 x = Reply id) in_ ids
        /\ LookupAccounts in_ tb
           = (match snd (fst (TB_LookupAccounts ids tb)) with
              | Some e => Failure e
              | None =>
                  Reply (LookupAccountsReply.mk
                           (map AccountToProtoAccount
                              (fst (fst (TB_LookupAccounts ids tb)))))
              end,
              snd (TB_LookupAccounts ids tb), [AskAccounts ids])).
Proof.
  pose proof (translateIDs_first in_ []) as Htr.
  unfold LookupAccounts. split; [reflexivity|]. split.
  - intros e Hfirst. destruct in_ as [|x in_]; [done|].
    change ((length (x :: in_) =? 0)%nat) with false. cbv iota.
    destruct (translateIDs (x :: in_) []) as [ids|e'].
    + destruct Htr as [Hnone _]. congruence.
    + congruence.
  - intros Hne Hfirst. destruct in_ as [|x in_]; [done|].
    change ((length (x :: in_) =? 0)%nat) with false. cbv iota.
    destruct (translateIDs (x :: in_) []) as [ids|e']; [|congruence].
    destruct Htr as (_ & new & Hnew & Hall). simpl in Hnew. subst new.
    exists ids. split; [exact Hall|].
    destruct (TB_LookupAccounts ids tb) as [[res err] tb']. simpl.
    by destruct err.
Qed.

(** X11. [LookupTransfers] asks the ledger at most once.  An empty
    request returns [ErrZeroTransfers] and the ledger is not asked.  When an
    identifier of the request does not translate it returns the error of
    the first that does not, and the ledger is not asked.  When the
    request is not empty and all its identifiers translate, the ledger is
    asked once, for the translated identifiers, one per element and in the
    order of the request; the call returns the error of the ledger, or one
    transfer per record that the ledger answers, in the order of the
    answer. *)
Theorem LookupTransfers_asks_once (in_ : list string) (tb : St) :
  LookupTransfers [] tb = (Failure ErrZeroTransfers, tb, [])
  /\ (forall e,
     first_failure (map shared_HexStringToUint128 in_) = Some e ->
     LookupTransfers in_ tb = (Failure e, tb, []))
  /\ (in_ <> [] ->
      first_failure (map shared_HexStringToUint128 in_) = None ->
      exists ids,
        Forall2 (fun x id => shared_HexStringToUint128 x = Reply id) in_ ids
        /\ LookupTransfers in_ tb
           = (match snd (fst (TB_LookupTransfers ids tb)) with
              | Some e => Failure e
              | None =>
                  Reply (LookupTransfersReply.mk
                           (map TransferToProtoTransfer
                              (fst (fst (TB_LookupTransfers ids tb)))))
              end,
              snd (TB_LookupTransfers ids tb), [AskTransfers ids])).
Proof.
  pose proof (translateIDs_first in_ []) as Htr.
  unfold LookupTransfers. split; [reflexivity|]. split.
  - intros e Hfirst. destruct in_ as [|x in_]; [done|].
    change ((length (x :: in_) =? 0)%nat) with false. cbv iota.
    destruct (translateIDs (x :: in_) []) as [ids|e'].
    + destruct Htr as [Hnone _]. congruence.
    + congruence.
  - intros Hne Hfirst. destruct in_ as [|x in_]; [done|].
    change ((length (x :: in_) =? 0)%nat) with false. cbv iota.
    destruct (translateIDs (x :: in_) []) as [ids|e']; [|congruence].
    destruct Htr as (_ & new & Hnew & Hall). simpl in Hnew. subst new.
    exists ids. split; [exact Hall|].
    destruct (TB_LookupTransfers ids tb) as [[res err] tb']. simpl.
    by destruct err.
Qed.

End LookupFacts.

Section ServerRuns.

Context {lib : Library} {St : Type} {client : Client St}.

Implicit Types (s : State St) (b : timedbuf.TimedBuf TimedPayload.t).

(** ** Runs of a server without a buffer *)

Lemma NewApp_unbuffered env (tb : St) :
  Getenv env "IS_BUFFERED" <> "true" -> NewApp env tb = Reply (mkApp tb None).
Proof.
  intros Hoff. unfold NewApp. by rewrite decide_False by exact Hoff.
Qed.

Lemma act_direct s a :
  TimedBuf (app s) = None ->
  chans s = ∅ ->
  TimedBuf (app (act s a)) = None
  /\ chans (act s a) = ∅
  /\ retired (act s a) = retired s
  /\ calls (act s a) = calls s ++ map CallCreateTransfers (submissions [a]).
Proof.
  intros Hnil Hch. destruct a as [in_| |c0]; simpl.
  - unfold CreateTransfers, submission.
    destruct (length in_ =? 0)%nat; [by rewrite app_nil_r|].
    destruct (translateTransfers in_ []) as [[transfers|e]|];
      [|by rewrite app_nil_r|by rewrite app_nil_r].
    rewrite Hnil. unfold client_CreateTransfers. rewrite Hnil.
    by destruct (TB_CreateTransfers transfers (TB (app s))) as [[results err] tb'].
  - unfold TimedBuf_Deadline. rewrite Hnil. by rewrite app_nil_r.
  - unfold CreateTransfers_resume, chan_recv. rewrite Hch, lookup_empty.
    by rewrite app_nil_r.
Qed.

Lemma submissions_cons a acts :
  submissions (a :: acts) = submissions [a] ++ submissions acts.
Proof.
  destruct a as [in_| |c0]; simpl; [|done|done].
  by destruct (submission in_).
Qed.

Lemma run_direct acts s :
  TimedBuf (app s) = None ->
  chans s = ∅ ->
  TimedBuf (app (fold_left act acts s)) = None
  /\ chans (fold_left act acts s) = ∅
  /\ retired (fold_left act acts s) = retired s
  /\ calls (fold_left act acts s)
     = calls s ++ map CallCreateTransfers (submissions acts).
Proof.
  revert s. induction acts as [|a acts IH]; intros s Hnil Hch.
  - simpl. by rewrite app_nil_r.
  - destruct (act_direct s a Hnil Hch) as (Hnil1 & Hch1 & Hr1 & Hc1).
    destruct (IH (act s a) Hnil1 Hch1) as (Hnil2 & Hch2 & Hr2 & Hc2).
    cbn [fold_left]. rewrite Hnil2, Hch2, Hr2, Hc2, Hr1, Hc1.
    rewrite (submissions_cons a acts), map_app, <- app_assoc. done.
Qed.

(** X12. Unless [IS_BUFFERED] is exactly [true], [NewApp] returns an
    application without a buffer, whatever [BUFFER_SIZE] and
    [BUFFER_DELAY] say, and in every state that the server reaches the
    ledger has seen one call for each request of transfers that was not
    empty and translated, with the transfers of that request, in the order
    in which the requests came; no channel was made, no Batch retired, and
    a further call of [CreateTransfers] ends without blocking. *)
Theorem unbuffered_server_calls_per_request env (tb : St)
    (acts : list action) :
  Getenv env "IS_BUFFERED" <> "true" ->
  NewApp env tb = Reply (mkApp tb None)
  /\ calls (fold_left act acts (boot (mkApp tb None)))
     = map CallCreateTransfers (submissions acts)
  /\ chans (fold_left act acts (boot (mkApp tb None))) = ∅
  /\ retired (fold_left act acts (boot (mkApp tb None))) = []
  /\ forall in_,
       exists r,
         fst (CreateTransfers in_ (fold_left act acts (boot (mkApp tb None))))
         = Returned r.
Proof.
  intros Hoff. split; [exact (NewApp_unbuffered env tb Hoff)|].
  destruct (run_direct acts (boot (mkApp tb None)) eq_refl eq_refl)
    as (Hnil & Hch & Hr & Hc).
  split; [exact Hc|]. split; [exact Hch|]. split; [exact Hr|].
  intros in_. unfold CreateTransfers.
  destruct (length in_ =? 0)%nat; [by eexists|].
  destruct (translateTransfers in_ []) as [[transfers|e]|];
    [|by eexists|by eexists].
  rewrite Hnil. unfold client_CreateTransfers.
  destruct (TB_CreateTransfers transfers _) as [[results err] tb'].
  by eexists.
Qed.

(** ** Runs of a server with a buffer *)

Lemma batch_transfers_concat (batches : list (list TimedPayload.t)) :
  batch_transfers (concat batches) = concat (map batch_transfers batches).
Proof.
  induction batches as [|batch batches IH]; [done|].
  simpl. by rewrite batch_transfers_app, IH.
Qed.

Lemma step_config s b ev :
  TimedBuf (app s) = Some b ->
  exists b',
    TimedBuf (app (step s ev)) = Some b'
    /\ timedbuf.capacity b' = timedbuf.capacity b
    /\ timedbuf.delay b' = timedbuf.delay b.
Proof.
  intros Hb. destruct ev as [item|]; simpl.
  - unfold TimedBuf_Put. rewrite Hb.
    destruct (timedbuf.Put b item) as [b' r] eqn:Hput.
    destruct (retire_frame r (set_TimedBuf b' s) b' eq_refl) as (Hb' & _).
    exists b'. split; [exact Hb'|].
    unfold timedbuf.Put in Hput.
    by destruct (timedbuf.capacity b <=? _); injection Hput as <- <-.
  - unfold TimedBuf_Deadline. rewrite Hb.
    destruct (timedbuf.Deadline b) as [b' r] eqn:Hdl.
    destruct (retire_frame r (set_TimedBuf b' s) b' eq_refl) as (Hb' & _).
    exists b'. split; [exact Hb'|].
    unfold timedbuf.Deadline in Hdl.
    by destruct (timedbuf.live b); injection Hdl as <- <-.
Qed.

Lemma act_buffered s b a :
  TimedBuf (app s) = Some b ->
  exists b' new,
    TimedBuf (app (act s a)) = Some b'
    /\ timedbuf.capacity b' = timedbuf.capacity b
    /\ timedbuf.delay b' = timedbuf.delay b
    /\ retired (act s a) = retired s ++ new
    /\ calls (act s a) = calls s ++ map flush_call new
    /\ concat (map batch_transfers new) ++ batch_transfers (timedbuf.live b')
       = batch_transfers (timedbuf.live b) ++ concat (submissions [a]).
Proof.
  intros Hb.
  assert (Hstep : forall s1 ev,
    TimedBuf (app s1) = Some b ->
    exists b' new,
      TimedBuf (app (step s1 ev)) = Some b'
      /\ timedbuf.capacity b' = timedbuf.capacity b
      /\ timedbuf.delay b' = timedbuf.delay b
      /\ retired (step s1 ev) = retired s1 ++ new
      /\ calls (step s1 ev) = calls s1 ++ map flush_call new
      /\ concat (map batch_transfers new) ++ batch_transfers (timedbuf.live b')
         = batch_transfers (timedbuf.live b ++ puts [ev])).
  { intros s1 ev Hb1.
    destruct (step_frame s1 b ev Hb1) as (b' & new & Hb' & Hr & Hc & Hp & _ & _).
    destruct (step_config s1 b ev Hb1) as (b'' & Hb'' & Hcap & Hdel).
    assert (b'' = b') by congruence. subst b''.
    exists b', new. rewrite <- Hp, batch_transfers_app, batch_transfers_concat.
    done. }
  assert (Hidle : exists b' new,
    TimedBuf (app s) = Some b'
    /\ timedbuf.capacity b' = timedbuf.capacity b
    /\ timedbuf.delay b' = timedbuf.delay b
    /\ retired s = retired s ++ new
    /\ calls s = calls s ++ map flush_call new
    /\ concat (map batch_transfers new) ++ batch_transfers (timedbuf.live b')
       = batch_transfers (timedbuf.live b) ++ concat []).
  { exists b, []. simpl. by rewrite !app_nil_r. }
  destruct a as [in_| |c0]; simpl.
  - unfold CreateTransfers, submission.
    destruct (length in_ =? 0)%nat; [exact Hidle|].
    destruct (translateTransfers in_ []) as [[transfers|e]|];
      [|exact Hidle|exact Hidle].
    rewrite Hb. destruct (make_chan s) as [c0 s1] eqn:Hmk.
    destruct (make_chan_fresh _ _ _ Hmk) as (_ & Happ & Hcalls & Hret).
    assert (Hb1 : TimedBuf (app s1) = Some b) by (by rewrite Happ).
    destruct (Hstep s1 (EvPut (TimedPayload.mk c0 transfers)) Hb1)
      as (b' & new & Hb' & Hcap & Hdel & Hr & Hc & Hp).
    exists b', new. simpl in *. rewrite Hr, Hc, Hret, Hcalls, Hp.
    rewrite batch_transfers_app. unfold batch_transfers. simpl.
    by rewrite !app_nil_r.
  - destruct (Hstep s EvDeadline Hb)
      as (b' & new & Hb' & Hcap & Hdel & Hr & Hc & Hp).
    exists b', new. simpl in *. by rewrite Hp, !app_nil_r.
  - unfold CreateTransfers_resume.
    destruct (chan_recv c0 s) as [[resp s1]|] eqn:Hrecv; [|exact Hidle].
    destruct (chan_recv_frame _ _ _ _ Hrecv) as (Happ & Hcalls & Hret).
    rewrite Happ, Hcalls, Hret. exact Hidle.
Qed.

Lemma run_buffered acts s b :
  TimedBuf (app s) = Some b ->
  exists b' new,
    TimedBuf (app (fold_left act acts s)) = Some b'
    /\ timedbuf.capacity b' = timedbuf.capacity b
    /\ timedbuf.delay b' = timedbuf.delay b
    /\ retired (fold_left act acts s) = retired s ++ new
    /\ calls (fold_left act acts s) = calls s ++ map flush_call new
    /\ concat (map batch_transfers new) ++ batch_transfers (timedbuf.live b')
       = batch_transfers (timedbuf.live b) ++ concat (submissions acts).
Proof.
  revert s b. induction acts as [|a acts IH]; intros s b Hb.
  - exists b, []. simpl. by rewrite !app_nil_r.
  - destruct (act_buffered s b a Hb)
      as (b1 & new1 & Hb1 & Hcap1 & Hdel1 & Hr1 & Hc1 & Hp1).
    destruct (IH (act s a) b1 Hb1)
      as (b2 & new2 & Hb2 & Hcap2 & Hdel2 & Hr2 & Hc2 & Hp2).
    exists b2, (new1 ++ new2). cbn [fold_left].
    rewrite Hb2, Hr2, Hc2, Hr1, Hc1, Hcap2, Hdel2.
    rewrite !map_app, concat_app, <- !app_assoc.
    repeat split; try done.
    rewrite Hp2, app_assoc, Hp1, (submissions_cons a acts), concat_app.
    by rewrite <- !app_assoc.
Qed.

(** X13. Start a server with an empty buffer, of any capacity and delay, and
    let calls of [CreateTransfers], deadlines and receives follow one
    another in any order.  Every call of the ledger is the flush of a
    Batch that the buffer retired, in the order of the Batches; the
    transfers of the retired Batches followed by those of the live Batch
    are the transfers of the requests that were not empty and translated,
    request after request in the order in which the requests came, none
    missing and none twice; the buffer keeps its capacity and its delay;
    and a further such request blocks on a channel that did not exist
    before. *)
Theorem buffered_server_submits_once (size maxDelay : Z) (tb : St)
    (acts : list action) :
  let s :=
    fold_left act acts (boot (mkApp tb (Some (timedbuf.mk size maxDelay [])))) in
  calls s
  = map (fun batch =>
           CallCreateTransfers (concat (map TimedPayload.payload batch)))
      (retired s)
  /\ concat (map batch_transfers (retired s)) ++ batch_transfers (live_batch s)
     = concat (submissions acts)
  /\ (exists b,
        TimedBuf (app s) = Some b
        /\ timedbuf.capacity b = size /\ timedbuf.delay b = maxDelay)
  /\ (forall in_ transfers,
        submission in_ = Some transfers ->
        exists c0,
          fst (CreateTransfers in_ s) = Waiting c0 /\ c0 ∉ dom (chans s)).
Proof.
  intros s. subst s.
  set (s0 := boot (mkApp tb (Some (timedbuf.mk size maxDelay [])))).
  destruct (run_buffered acts s0 (timedbuf.mk size maxDelay []) eq_refl)
    as (b & new & Hb & Hcap & Hdel & Hr & Hc & Hp).
  simpl in Hr, Hc, Hp, Hcap, Hdel.
  split; [by rewrite Hr, Hc|].
  split; [by unfold live_batch; rewrite Hb, Hr|].
  split; [by exists b|].
  intros in_ transfers Hsub. unfold submission in Hsub. unfold CreateTransfers.
  destruct (length in_ =? 0)%nat; [done|].
  destruct (translateTransfers in_ []) as [[ts|e]|]; [|done|done].
  rewrite Hb. exists (fresh (dom (chans (fold_left act acts s0)))).
  split; [done|]. apply is_fresh.
Qed.

(** ** One response for each waiter *)

Lemma occurrences_once p payloads :
  NoDup (batch_chans payloads) ->
  p ∈ payloads ->
  occurrences (TimedPayload.c p) payloads = 1%nat.
Proof.
  unfold occurrences, batch_chans.
  induction payloads as [|p0 payloads IH]; intros Hnd Hin.
  - by apply elem_of_nil in Hin.
  - simpl in Hnd. apply NoDup_cons in Hnd as [Hnot Hnd].
    rewrite filter_cons.
    apply elem_of_cons in Hin as [->|Hin].
    + rewrite decide_True by done. simpl. f_equal.
      apply (occurrences_none (TimedPayload.c p0) payloads Hnot).
    + rewrite decide_False; [by apply IH|].
      intros Heq. apply Hnot. rewrite Heq.
      by apply list_elem_of_fmap_2.
Qed.

Lemma Put_waiters_apart s item :
  waiters_apart s ->
  chans s !! TimedPayload.c item = Some [] ->
  TimedPayload.c item ∉ batch_chans (live_batch s) ->
  waiters_apart (TimedBuf_Put item s).
Proof.
  intros [Hready Hnd] Hitem Hnew.
  split; [by apply Put_waiters_ready|].
  unfold TimedBuf_Put.
  destruct (TimedBuf (app s)) as [b|] eqn:Hb; [|exact Hnd].
  unfold timedbuf.Put. destruct (timedbuf.capacity b <=? _); cbn [retire].
  - erewrite live_batch_flushed; [constructor| |]; reflexivity.
  - unfold live_batch in *. rewrite Hb in Hnd, Hnew. simpl.
    unfold batch_chans in *. rewrite map_app. simpl.
    apply NoDup_app. split; [exact Hnd|]. split; [|apply NoDup_singleton].
    intros c0 Hc0 ->%list_elem_of_singleton. by apply Hnew.
Qed.

Lemma Deadline_waiters_apart s : waiters_apart (TimedBuf_Deadline s).
Proof.
  split; [apply Deadline_waiters_ready|].
  unfold TimedBuf_Deadline.
  destruct (TimedBuf (app s)) as [b|] eqn:Hb.
  - unfold timedbuf.Deadline.
    destruct (timedbuf.live b) as [|p0 batch] eqn:Hlive; cbn [retire].
    + unfold live_batch. rewrite set_TimedBuf_id by exact Hb.
      rewrite Hb, Hlive. constructor.
    + erewrite live_batch_flushed; [constructor| |]; reflexivity.
  - unfold live_batch. rewrite Hb. constructor.
Qed.

Lemma act_waiters_apart s a : waiters_apart s -> waiters_apart (act s a).
Proof.
  intros Hapart. destruct a as [in_| |c0].
  - pose proof (act_waiters_ready s (ActCreateTransfers in_) (proj1 Hapart))
      as Hready'.
    split; [exact Hready'|]. clear Hready'. simpl.
    destruct Hapart as [Hready Hnd].
    unfold CreateTransfers. destruct (length in_ =? 0)%nat; [done|].
    destruct (translateTransfers in_ []) as [[transfers|e]|]; [|done|done].
    destruct (TimedBuf (app s)) as [b|] eqn:Hb.
    + destruct (make_chan s) as [c0 s1] eqn:Hmk. simpl.
      destruct (make_chan_fresh _ _ _ Hmk) as (Hc0 & Happ & _ & _).
      assert (Hlive : live_batch s1 = live_batch s)
        by (unfold live_batch; by rewrite Happ).
      assert (Hfresh : c0 ∉ batch_chans (live_batch s)).
      { unfold make_chan in Hmk. injection Hmk as <- _.
        intros (p & Hcp & Hp)%list_elem_of_fmap.
        apply (is_fresh (dom (chans s))). rewrite Hcp.
        apply elem_of_dom. rewrite (Hready p Hp). by eexists. }
      apply Put_waiters_apart.
      * split; [|by rewrite Hlive].
        intros p Hp. rewrite Hlive in Hp.
        unfold make_chan in Hmk. injection Hmk as <- <-. simpl.
        destruct (decide (fresh (dom (chans s)) = TimedPayload.c p)) as [<-|Hne].
        -- by rewrite lookup_insert_eq.
        -- rewrite lookup_insert_ne by done. by apply Hready.
      * exact Hc0.
      * by rewrite Hlive.
    + unfold client_CreateTransfers.
      destruct (TB_CreateTransfers transfers (TB (app s))) as [[results err] tb'].
      simpl. unfold live_batch. simpl. rewrite Hb. constructor.
  - apply Deadline_waiters_apart.
  - split; [by apply act_waiters_ready, Hapart|]. simpl.
    destruct Hapart as [_ Hnd].
    unfold CreateTransfers_resume.
    destruct (chan_recv c0 s) as [[resp s1]|] eqn:Hrecv; [|done].
    destruct (chan_recv_frame _ _ _ _ Hrecv) as (Happ & _ & _).
    unfold live_batch. by rewrite Happ.
Qed.

Lemma reachable_waiters_apart env (tb : St) (a0 : App St)
    (acts : list action) :
  NewApp env tb = Reply a0 ->
  waiters_apart (fold_left act acts (boot a0)).
Proof.
  intros Hnew.
  assert (Hboot : waiters_apart (boot a0)).
  { destruct (NewApp_valid env tb a0 Hnew) as [_ Hlive].
    split.
    - intros p. rewrite Hlive. by intros ?%elem_of_nil.
    - rewrite Hlive. constructor. }
  revert Hboot. generalize (boot a0).
  induction acts as [|a acts IH]; intros s Hs; simpl; [done|].
  apply IH. by apply act_waiters_apart.
Qed.

(** X14. In every state that the server reaches from the application
    that [NewApp] returns, the payloads of the live Batch wait on channels that differ from one
    another, each made and empty.  So when the deadline fires, the channel
    of each payload of the live Batch holds exactly one response, the
    result of the flush of that Batch; the call behind the payload
    receives it and returns, and a second receive on that channel would
    find nothing. *)
Theorem each_waiter_answered_once env (tb : St) (a0 : App St)
    (acts : list action) (p : TimedPayload.t) :
  NewApp env tb = Reply a0 ->
  let s := fold_left act acts (boot a0) in
  p ∈ live_batch s ->
  NoDup (map TimedPayload.c (live_batch s))
  /\ chans s !! TimedPayload.c p = Some []
  /\ chans (TimedBuf_Deadline s) !! TimedPayload.c p
     = Some [flush_result (live_batch s) s]
  /\ exists s1,
       CreateTransfers_resume (TimedPayload.c p) (TimedBuf_Deadline s)
       = Some (CreateTransfers_reply
                 (TimedPayloadResponse.Results (flush_result (live_batch s) s))
                 (TimedPayloadResponse.Error (flush_result (live_batch s) s)),
               s1)
       /\ CreateTransfers_resume (TimedPayload.c p) s1 = None.
Proof.
  intros Hnew s Hp.
  destruct (reachable_waiters_apart env tb a0 acts Hnew) as [Hready Hnd].
  fold s in Hready, Hnd.
  split; [exact Hnd|]. split; [by apply Hready|].
  assert (Hone : chans (TimedBuf_Deadline s) !! TimedPayload.c p
                 = Some [flush_result (live_batch s) s]).
  { unfold live_batch in Hp, Hnd |- *. unfold TimedBuf_Deadline.
    pose proof (Hready p) as Hempty. unfold live_batch in Hempty.
    destruct (TimedBuf (app s)) as [b|] eqn:Hb; [|by apply elem_of_nil in Hp].
    unfold timedbuf.Deadline.
    destruct (timedbuf.live b) as [|p0 batch] eqn:Hlive;
      [by apply elem_of_nil in Hp|].
    cbn [retire]. rewrite flushFn_chans. unfold set_TimedBuf. cbn [chans].
    rewrite (Hempty Hp). simpl.
    rewrite (occurrences_once p (p0 :: batch) Hnd Hp). simpl.
    reflexivity. }
  split; [exact Hone|].
  unfold CreateTransfers_resume at 1. unfold chan_recv at 1. rewrite Hone.
  eexists. split; [reflexivity|].
  unfold CreateTransfers_resume, chan_recv. cbn [chans].
  by rewrite lookup_insert_eq.
Qed.

End ServerRuns.

(** * The statements on concrete inputs *)

Section Instances.

Import Examples.

Local Existing Instance Reference.library.
Local Existing Instance Reference.ledger.

Lemma two_payloads_fresh (calls_left : nat) (p : TimedPayload.t) :
  p ∈ two_payloads ->
  chans (two_waiting calls_left) !! TimedPayload.c p = Some [].
Proof.
  unfold two_payloads. intros Hp.
  apply elem_of_cons in Hp as [->|Hp]; [reflexivity|].
  apply elem_of_cons in Hp as [->|Hp]; [reflexivity|].
  by apply elem_of_nil in Hp.
Defined.

(** The first caller, whose own transfer the ledger accepts, replies with
    the rejection of the transfer of the second caller. *)
Lemma flush_fans_out_witness :
  exists s',
    CreateTransfers_resume 0%nat (flushFn two_payloads (two_waiting 3))
    = Some (Reply (proto.CreateTransfersReply.mk ["TransferRejected"]), s').
Proof.
  destruct (flush_fans_out two_payloads (two_waiting 3)
              (two_payloads_fresh 3)
              (TimedPayload.mk 0%nat [first_record])
              (list_elem_of_here _ _))
    as (s' & _ & Hreply).
  exists s'. exact Hreply.
Defined.

(** With a ledger that takes no more calls, the second caller returns the
    error of the ledger. *)
Lemma flush_failure_reaches_all_witness :
  calls (flushFn two_payloads (two_waiting 0))
  = [CallCreateTransfers [first_record; second_record]]
  /\ exists s',
       CreateTransfers_resume 1%nat (flushFn two_payloads (two_waiting 0))
       = Some (Failure Reference.ErrClosed, s').
Proof.
  destruct (flush_failure_reaches_all (client := Reference.ledger)
              two_payloads (two_waiting 0)
              Reference.ErrClosed eq_refl (two_payloads_fresh 0))
    as [Hcalls Hall].
  split; [exact Hcalls|].
  destruct (Hall (TimedPayload.mk 1%nat [second_record])
              (list_elem_of_further _ _ _ (list_elem_of_here _ _)))
    as (resp & s' & _ & _ & Hreply).
  exists s'. exact Hreply.
Defined.

(** A request of two transfers, without a buffer and with a buffer of the
    default size. *)
Lemma passthrough_equivalence_witness :
  exists s1 s2,
    CreateTransfers [first_transfer; second_transfer] (boot (mkApp 3%nat None))
    = (Returned (Reply (proto.CreateTransfersReply.mk ["TransferRejected"])), s1)
    /\ CreateTransfers_alone [first_transfer; second_transfer]
         (set_TimedBuf (timedbuf.mk 1024 (100 * Millisecond) [])
            (boot (mkApp 3%nat None)))
       = Some (Normal (Reply (proto.CreateTransfersReply.mk
                                ["TransferRejected"])), s2)
    /\ TB (app s2) = TB (app s1)
    /\ calls s2 = calls s1.
Proof.
  assert (Hne : [first_transfer; second_transfer] <> []) by discriminate.
  exact (passthrough_equivalence (lib := Reference.library)
           (client := Reference.ledger) (boot (mkApp 3%nat None))
           (timedbuf.mk 1024 (100 * Millisecond) [])
           [first_transfer; second_transfer] eq_refl eq_refl Hne).
Defined.

(** With [BUFFER_SIZE=-5] and [BUFFER_DELAY=0s] the construction reports
    the configuration error and [NewApp] returns no application. *)
Lemma NewApp_reports_invalid_configuration_witness :
  NewApp env_invalid 3%nat = Failure timedbuf.ErrConfiguration.
Proof.
  destruct (NewApp_reports_invalid_configuration (lib := Reference.library)
              env_invalid 3%nat eq_refl)
    as (Hbad & _ & _).
  apply Hbad. left. vm_compute. discriminate.
Defined.

Lemma NewApp_defaults_witness :
  exists b,
    NewApp env_defaults 3%nat = Reply (mkApp 3%nat (Some b))
    /\ timedbuf.capacity b = 1024
    /\ timedbuf.delay b = 100000000.
Proof.
  destruct (NewApp_defaults (lib := Reference.library)
              env_defaults 3%nat eq_refl eq_refl)
    as (size & maxDelay & _ & Hsize & Hdelay & Hbuf).
  destruct (Hbuf (mkApp 3%nat (Some (timedbuf.mk 1024 100000000 []))) eq_refl)
    as (b & Hb & Hcap & Hdel).
  exists b. split; [|split].
  - injection Hb as <-. reflexivity.
  - rewrite Hcap. apply Hsize. left. reflexivity.
  - rewrite Hdel. apply Hdelay. discriminate.
Defined.

(** The ledger 700000 gives the code 44640, not the code 5 of the
    request. *)
Lemma transfer_code_is_ledger_witness :
  Forall2
    (fun x t =>
       types.Transfer.Code t = proto.Transfer.Ledger x mod 2 ^ 16
       /\ types.Transfer.Timeout t = 0
       /\ types.Transfer.Timestamp t = 0)
    [first_transfer; second_transfer] [first_record; second_record]
  /\ forall k,
       translateTransfers
         (map (with_Code k) [first_transfer; second_transfer]) []
       = Reply [first_record; second_record].
Proof.
  exact (transfer_code_is_ledger (lib := Reference.library)
           [first_transfer; second_transfer]
           [first_record; second_record] eq_refl).
Defined.

Lemma bad_transfer_fails : Exists fails (transfer_ids bad_transfer).
Proof.
  apply Exists_cons_tl, Exists_cons_tl, Exists_cons_hd.
  eexists. reflexivity.
Defined.

Lemma bad_account_fails : Exists fails (account_ids bad_account).
Proof.
  apply Exists_cons_hd. eexists. reflexivity.
Defined.

(** A request of one transfer that carries no flags and whose debit
    account does not translate: the call panics and returns no error.  A
    request of two accounts, the first without flags, the second with an
    identifier that does not translate: the call panics on the first. *)
Lemma missing_flags_panic :
  (Exists (fun x => Exists fails (transfer_ids x))
     [MoreExamples.flagless_transfer]
   /\ CreateTransfers [MoreExamples.flagless_transfer]
        (boot (mkApp 3%nat None))
      = (Returned Panic, boot (mkApp 3%nat None))
   /\ ~ exists e,
         CreateTransfers [MoreExamples.flagless_transfer]
           (boot (mkApp 3%nat None))
         = (Returned (Failure e), boot (mkApp 3%nat None)))
  /\ (Exists (fun x => Exists fails (account_ids x))
        [MoreExamples.flagless_account; bad_account]
      /\ CreateAccounts [MoreExamples.flagless_account; bad_account]
           (boot (mkApp 3%nat None))
         = (Panic, boot (mkApp 3%nat None))).
Proof.
  split; [split; [|split]|split].
  - apply Exists_cons_hd, Exists_cons_tl, Exists_cons_hd.
    eexists. reflexivity.
  - reflexivity.
  - intros [e He]. discriminate He.
  - apply Exists_cons_tl, Exists_cons_hd. exact bad_account_fails.
  - reflexivity.
Qed.

(** A request whose second transfer does not translate, and a request of
    one account that does not; every element carries its flags. *)
Lemma translation_failure_is_atomic_witness :
  (exists e x,
     CreateTransfers [first_transfer; bad_transfer] (boot (mkApp 3%nat None))
     = (Returned (Failure e), boot (mkApp 3%nat None))
     /\ x ∈ [first_transfer; bad_transfer] /\ Failure e ∈ transfer_ids x)
  /\ (exists e x,
        CreateAccounts [bad_account] (boot (mkApp 3%nat None))
        = (Normal (Failure e), boot (mkApp 3%nat None))
        /\ x ∈ [bad_account] /\ Failure e ∈ account_ids x).
Proof.
  destruct (translation_failure_is_atomic (boot (mkApp 3%nat None)))
    as [Htransfers Haccounts].
  split.
  - apply Htransfers.
    + apply Exists_cons_tl, Exists_cons_hd. exact bad_transfer_fails.
    + repeat constructor; by eexists.
  - apply Haccounts.
    + apply Exists_cons_hd. exact bad_account_fails.
    + repeat constructor; by eexists.
Defined.

End Instances.

Section MoreInstances.

Import Examples MoreExamples.

Local Existing Instance Reference.library.
Local Existing Instance Reference.ledger.
Local Existing Instance MoreExamples.reader.
Local Existing Instance MoreExamples.converters.

(** The second transfer fails twice, the third once; the error is that of
    the debit account of the second.  With a transfer without flags in
    second place, the call panics before the debit account is read. *)
Lemma CreateTransfers_first_stop_witness :
  CreateTransfers [first_transfer; twice_bad_transfer; bad_transfer]
    (two_waiting 3)
  = (Returned (Failure too_long), two_waiting 3)
  /\ CreateTransfers [first_transfer; flagless_transfer; bad_transfer]
       (two_waiting 3)
     = (Returned Panic, two_waiting 3).
Proof.
  split.
  - exact (CreateTransfers_first_stop (lib := Reference.library)
             (client := Reference.ledger)
             [first_transfer; twice_bad_transfer; bad_transfer]
             (two_waiting 3) (StopError too_long) eq_refl).
  - exact (CreateTransfers_first_stop (lib := Reference.library)
             (client := Reference.ledger)
             [first_transfer; flagless_transfer; bad_transfer]
             (two_waiting 3) StopPanic eq_refl).
Defined.

(** The user data of the second account is too long; with an account
    without flags in first place, the call panics on it. *)
Lemma CreateAccounts_first_stop_witness :
  CreateAccounts [good_account; long_account; bad_account] (two_waiting 3)
  = (Normal (Failure too_long), two_waiting 3)
  /\ CreateAccounts [flagless_account; bad_account] (two_waiting 3)
     = (Panic, two_waiting 3).
Proof.
  split.
  - exact (CreateAccounts_first_stop (lib := Reference.library)
             (client := Reference.ledger)
             [good_account; long_account; bad_account]
             (two_waiting 3) (StopError too_long) eq_refl).
  - exact (CreateAccounts_first_stop (lib := Reference.library)
             (client := Reference.ledger)
             [flagless_account; bad_account]
             (two_waiting 3) StopPanic eq_refl).
Defined.

Lemma CreateTransfers_direct_witness :
  exists transfers,
    Forall2 (fun x t => translateTransfer x = Reply t)
      [first_transfer; second_transfer] transfers
    /\ CreateTransfers [first_transfer; second_transfer]
         (boot (mkApp 3%nat None))
       = (Returned (Reply (proto.CreateTransfersReply.mk ["TransferRejected"])),
          mkState (mkApp 2%nat None) ∅
            ([] ++ [CallCreateTransfers transfers]) []).
Proof.
  assert (Hne : [first_transfer; second_transfer] <> []) by discriminate.
  destruct (CreateTransfers_direct (lib := Reference.library)
              (client := Reference.ledger)
              [first_transfer; second_transfer] (boot (mkApp 3%nat None))
              eq_refl Hne eq_refl)
    as (transfers & Hall & Hcall).
  exists transfers. split; [exact Hall|].
  inversion Hall as [|x1 t1 l1 l1' Ht1 Hall1]; subst.
  inversion Hall1 as [|x2 t2 l2 l2' Ht2 Hall2]; subst.
  inversion Hall2; subst.
  injection Ht1 as <-. injection Ht2 as <-. exact Hcall.
Defined.

(** A request of accounts on an application with a buffer that holds two
    payloads: the buffer and the channels stay as they are. *)
Lemma CreateAccounts_direct_witness :
  exists accounts,
    Forall2 (fun x a => translateAccount x = Reply a) [good_account] accounts
    /\ CreateAccounts [good_account] (two_waiting 3)
       = (Normal (Reply (proto.CreateAccountsReply.mk [])),
          mkState (mkApp 2%nat (TimedBuf (app (two_waiting 3))))
            (chans (two_waiting 3)) ([] ++ [CallCreateAccounts accounts]) []).
Proof.
  assert (Hne : [good_account] <> []) by discriminate.
  destruct (CreateAccounts_direct (lib := Reference.library)
              (client := Reference.ledger)
              [good_account] (two_waiting 3) Hne eq_refl)
    as (accounts & Hall & Hcall).
  exists accounts. split; [exact Hall|].
  inversion Hall as [|x1 a1 l1 l1' Ha1 Hall1]; subst.
  inversion Hall1; subst.
  injection Ha1 as <-. exact Hcall.
Defined.

(** The amount -1 becomes [2^64 - 1] and the ledger [2^32 + 7] becomes 7. *)
Lemma transfer_numbers_wrap_witness :
  exists t,
    translateTransfer odd_transfer = Reply t
    /\ types.Transfer.Amount t = 2 ^ 64 - 1
    /\ types.Transfer.Ledger t = 7.
Proof.
  eexists. split; [reflexivity|].
  destruct (transfer_numbers_wrap (lib := Reference.library)
              odd_transfer _ eq_refl)
    as (_ & _ & Hneg & _ & Hhigh).
  split.
  - rewrite Hneg; [reflexivity|]. simpl. lia.
  - rewrite Hhigh; [reflexivity|]. simpl. lia.
Defined.

(** The ledger 700000 is above 65535, so the code, 44640, differs from
    it. *)
Lemma transfer_code_follows_ledger_witness :
  types.Transfer.Code first_record = 700000 mod 2 ^ 16
  /\ types.Transfer.Code first_record <> types.Transfer.Ledger first_record.
Proof.
  destruct (transfer_code_follows_ledger (lib := Reference.library)
              first_transfer first_record eq_refl)
    as (Hcode & _ & Hiff).
  split; [exact Hcode|].
  intros Heq. apply Hiff in Heq. discriminate Heq.
Defined.

Lemma account_numbers_wrap_witness :
  exists a,
    translateAccount good_account = Reply a
    /\ types.Account.Code a = 5
    /\ types.Account.Ledger a = 1.
Proof.
  eexists. split; [reflexivity|].
  destruct (account_numbers_wrap (lib := Reference.library)
              good_account _ eq_refl)
    as (_ & _ & _ & Hcode & Hledger).
  split.
  - apply Hcode. simpl. lia.
  - apply Hledger. simpl. lia.
Defined.

(** The channel 2 is not of the Batch of two payloads: what it holds stays
    as it is. *)
Lemma flush_touches_only_its_batch_witness :
  chans (flushFn two_payloads
           (mkState (app (two_waiting 3))
              (<[2%nat := [TimedPayloadResponse.mk [] None]]>
                 (chans (two_waiting 3))) [] []))
  !! 2%nat
  = Some [TimedPayloadResponse.mk [] None].
Proof.
  destruct (flush_touches_only_its_batch (client := Reference.ledger)
              two_payloads
              (mkState (app (two_waiting 3))
                 (<[2%nat := [TimedPayloadResponse.mk [] None]]>
                    (chans (two_waiting 3))) [] []))
    as (_ & Hout & _).
  rewrite Hout; [reflexivity|].
  change (map TimedPayload.c two_payloads) with [0%nat; 1%nat].
  intros Hin. apply elem_of_cons in Hin as [Hin|Hin]; [discriminate Hin|].
  apply elem_of_cons in Hin as [Hin|Hin]; [discriminate Hin|].
  by apply elem_of_nil in Hin.
Defined.

(** The second transfer of the second payload is the third of the call. *)
Lemma flush_positions_witness :
  exists transfers,
    calls (flushFn three_payloads (two_waiting 3))
    = [] ++ [CallCreateTransfers transfers]
    /\ transfers !! 2%nat = Some first_record
    /\ length transfers = 4%nat.
Proof.
  exact (flush_positions (client := Reference.ledger)
           [TimedPayload.mk 0%nat [first_record]]
           [TimedPayload.mk 2%nat [second_record]]
           (TimedPayload.mk 1%nat [second_record; first_record])
           (two_waiting 3) 1%nat first_record eq_refl).
Defined.

Lemma LookupAccounts_asks_once_witness :
  LookupAccounts ["7"; "xyz"; "8"] 3%nat
  = (Failure (ExternalError "encoding/hex: invalid byte"), 3%nat, [])
  /\ exists ids,
       Forall2 (fun x id => shared_HexStringToUint128 x = Reply id)
         ["a"; "7"] ids
       /\ LookupAccounts ["a"; "7"] 3%nat
          = (Reply (LookupAccountsReply.mk
                      (map AccountToProtoAccount
                         (map account_of ids))),
             2%nat, [AskAccounts ids]).
Proof.
  destruct (LookupAccounts_asks_once (lib := Reference.library)
              (conv := MoreExamples.converters) (lookups := MoreExamples.reader)
              ["7"; "xyz"; "8"] 3%nat)
    as (_ & Hfail & _).
  split; [apply Hfail; reflexivity|].
  assert (Hne : ["a"; "7"] <> []) by discriminate.
  destruct (LookupAccounts_asks_once (lib := Reference.library)
              (conv := MoreExamples.converters) (lookups := MoreExamples.reader)
              ["a"; "7"] 3%nat)
    as (_ & _ & Hgood).
  destruct (Hgood Hne eq_refl) as (ids & Hall & Hcall).
  exists ids. split; [exact Hall|]. exact Hcall.
Defined.

Lemma LookupTransfers_asks_once_witness :
  LookupTransfers ["7"; "xyz"; "8"] 3%nat
  = (Failure (ExternalError "encoding/hex: invalid byte"), 3%nat, [])
  /\ exists ids,
       Forall2 (fun x id => shared_HexStringToUint128 x = Reply id)
         ["a"; "7"] ids
       /\ LookupTransfers ["a"; "7"] 0%nat
          = (Failure Reference.ErrClosed, 0%nat, [AskTransfers ids]).
Proof.
  destruct (LookupTransfers_asks_once (lib := Reference.library)
              (conv := MoreExamples.converters) (lookups := MoreExamples.reader)
              ["7"; "xyz"; "8"] 3%nat)
    as (_ & Hfail & _).
  split; [apply Hfail; reflexivity|].
  assert (Hne : ["a"; "7"] <> []) by discriminate.
  destruct (LookupTransfers_asks_once (lib := Reference.library)
              (conv := MoreExamples.converters) (lookups := MoreExamples.reader)
              ["a"; "7"] 0%nat)
    as (_ & _ & Hgood).
  destruct (Hgood Hne eq_refl) as (ids & Hall & Hcall).
  exists ids. split; [exact Hall|]. exact Hcall.
Defined.

(** With [IS_BUFFERED=TRUE] there is no buffer: the run makes two calls of
    the ledger, one for each request that translates. *)
Lemma unbuffered_server_calls_per_request_witness :
  NewApp env_capitals 3%nat = Reply (mkApp 3%nat None)
  /\ calls (fold_left act mixed_run (boot (mkApp 3%nat None)))
     = [CallCreateTransfers [first_record];
        CallCreateTransfers [second_record; first_record]].
Proof.
  assert (Hoff : Getenv env_capitals "IS_BUFFERED" <> "true") by discriminate.
  destruct (unbuffered_server_calls_per_request (lib := Reference.library)
              (client := Reference.ledger) env_capitals 3%nat mixed_run Hoff)
    as (Hnil & Hcalls & _).
  split; [exact Hnil|exact Hcalls].
Defined.

(** With a buffer of capacity 2 the same run makes one call, for the Batch
    of the two requests that translate. *)
Lemma buffered_server_submits_once_witness :
  calls (fold_left act mixed_run
           (boot (mkApp 3%nat (Some (timedbuf.mk 2 (100 * Millisecond) [])))))
  = [CallCreateTransfers [first_record; second_record; first_record]]
  /\ exists c0,
       fst (CreateTransfers [second_transfer]
              (fold_left act mixed_run
                 (boot (mkApp 3%nat
                          (Some (timedbuf.mk 2 (100 * Millisecond) []))))))
       = Waiting c0.
Proof.
  destruct (buffered_server_submits_once (lib := Reference.library)
              (client := Reference.ledger) 2 (100 * Millisecond) 3%nat
              mixed_run)
    as (Hcalls & _ & _ & Hblock).
  split; [exact Hcalls|].
  destruct (Hblock [second_transfer] [second_record] eq_refl) as (c0 & Hc0 & _).
  exists c0. exact Hc0.
Defined.

(** Two callers wait in a buffer of the default size; when the deadline
    fires the first finds one response, the rejection of the transfer of
    the second. *)
Lemma each_waiter_answered_once_witness :
  NewApp env_defaults 3%nat
  = Reply (mkApp 3%nat (Some (timedbuf.mk 1024 100000000 [])))
  /\ chans (TimedBuf_Deadline
              (fold_left act
                 [ActCreateTransfers [first_transfer];
                  ActCreateTransfers [second_transfer]]
                 (boot (mkApp 3%nat
                          (Some (timedbuf.mk 1024 100000000 []))))))
     !! 0%nat
     = Some [TimedPayloadResponse.mk [types.TransferEventResult.mk 1 1] None].
Proof.
  split; [reflexivity|].
  assert (Hp : TimedPayload.mk 0%nat [first_record]
               ∈ live_batch
                   (fold_left act
                      [ActCreateTransfers [first_transfer];
                       ActCreateTransfers [second_transfer]]
                      (boot (mkApp 3%nat
                               (Some (timedbuf.mk 1024 100000000 []))))))
    by (vm_compute; apply list_elem_of_here).
  destruct (each_waiter_answered_once (lib := Reference.library)
              (client := Reference.ledger) env_defaults 3%nat
              (mkApp 3%nat (Some (timedbuf.mk 1024 100000000 [])))
              [ActCreateTransfers [first_transfer];
               ActCreateTransfers [second_transfer]]
              (TimedPayload.mk 0%nat [first_record]) eq_refl Hp)
    as (_ & _ & Hone & _).
  exact Hone.
Defined.

End MoreInstances.
